(** * Football match tracker: normalizer, persistent store, statistics, sync

    A shallow embedding of [src/api_client.py] ([parse_fixture]),
    [src/database.py] ([DatabaseManager]) and [src/service.py]
    ([sync_team_fixtures], [list_fixtures], [mark_match_attended],
    [unmark_match_attended], [get_attendance_statistics],
    [search_and_select_team]), with the properties of the
    specification stated over it.  The HTTP methods of the client are
    parameters of the code that calls them; what the service prints is
    left out.

    Modelling conventions.
    - Python values are [pyval]; a [dict] with string keys is a
      [gmap string pyval].  JSON floats are not represented.
    - A Python exception is a value of [exn]; code that may raise
      returns [result].
    - The standard [datetime] class is an interface ([DatetimeLib]):
      the parser [fromisoformat], the formatter [strftime] and the
      text sqlite3 binds a datetime as.
    - SQL values are [sqlval] (NULL, INTEGER, TEXT) and SQL conditions
      are three-valued ([option bool], [None] being NULL).  A value is
      stored in the storage class it is bound with: the conversions of
      SQLite's column affinity (numeric text bound to an INTEGER column,
      a number bound to a TEXT column) are not modelled.
    - The integer arguments of the store's methods ([fixture_id],
      [team_id]) are integers that fit SQLite's 64-bit INTEGER.
    - The database is a [store]: the rows of [fixtures] and
      [attended_matches] and the AUTOINCREMENT counter.  The order of
      the rows of a table is the order of insertion; it shows only
      among rows that an ORDER BY leaves tied, where SQL fixes none.
      Foreign keys are declared but not enforced (SQLite's default).
    - CURRENT_TIMESTAMP is an explicit argument [now]. *)

From Stdlib Require Import ZArith String Ascii.
From Stdlib Require OrderedTypeEx.
From stdpp Require Import base option list gmap strings sorting.

Local Open Scope string_scope.
Local Open Scope list_scope.
Local Open Scope Z_scope.

(** ** Exceptions and results *)

Inductive exn :=
| AttributeError   (* method looked up on a value that lacks it *)
| ValueError       (* fromisoformat on an invalid string, unknown competition *)
| InterfaceError   (* sqlite3 cannot bind a parameter of that type *)
| OverflowError    (* an int that does not fit SQLite's 64-bit INTEGER *)
| IntegrityError   (* NOT NULL / UNIQUE / datatype constraint *)
| RequestError.    (* any failure of the HTTP collaborator *)

Inductive result (A : Type) :=
| Ok (a : A)
| Err (e : exn).
Arguments Ok {A} a.
Arguments Err {A} e.

#[global] Instance result_ret : MRet result := λ A a, Ok a.
#[global] Instance result_bind : MBind result := λ A B f m,
  match m with
  | Ok a => f a
  | Err e => Err e
  end.

Definition returns {A} (m : result A) : Prop := ∃ a, m = Ok a.

(** ** The datetime library *)

Class DatetimeLib := {
  datetime : Type;
  (** [datetime.fromisoformat]; [None] is ValueError. *)
  fromisoformat : string → option datetime;
  (** [d.strftime('%d/%m/%Y %H:%M')]. *)
  strftime : datetime → string;
  (** The text sqlite3's default adapter binds for a datetime. *)
  adapt_datetime : datetime → string;
  (** The empty string is not an ISO date. *)
  fromisoformat_empty : fromisoformat "" = None
}.

Set Warnings "-register-all".

Section Normalizer.
Context {DT : DatetimeLib}.

(** ** Python values *)

Inductive pyval :=
| PNone
| PBool (b : bool)
| PInt (z : Z)
| PStr (s : string)
| PDatetime (d : datetime)
| PList (l : list pyval)
| PDict (d : gmap string pyval).

(** [v.get(k, dflt)]: only a dict has the method. *)
Definition py_get (v : pyval) (k : string) (dflt : pyval) : result pyval :=
  match v with
  | PDict d => Ok (default dflt (d !! k))
  | _ => Err AttributeError
  end.

(** [s.replace('Z', '+00:00')] on a string. *)
Fixpoint replace_Z (s : string) : string :=
  match s with
  | EmptyString => EmptyString
  | String c s' =>
      if Ascii.eqb c "Z" then "+00:00" +:+ replace_Z s'
      else String c (replace_Z s')
  end.

(** [v.replace('Z', '+00:00')]: only a str has the method here. *)
Definition py_replace_Z (v : pyval) : result string :=
  match v with
  | PStr s => Ok (replace_Z s)
  | _ => Err AttributeError
  end.

Definition py_fromisoformat (s : string) : result datetime :=
  match fromisoformat s with
  | Some d => Ok d
  | None => Err ValueError
  end.

(** [v in codes] for a list of string literals. *)
Definition py_in (v : pyval) (codes : list string) : bool :=
  match v with
  | PStr s => bool_decide (s ∈ codes)
  | _ => false
  end.

(** The if/elif chain of [parse_fixture] on the short status code. *)
Definition match_status (status_short : pyval) : string :=
  if py_in status_short ["FT"; "AET"; "PEN"] then "finished"
  else if py_in status_short ["1H"; "2H"; "HT"; "ET"; "P"; "LIVE"] then "in_progress"
  else if py_in status_short ["TBD"; "NS"] then "scheduled"
  else "postponed".

(** [v.get(k1, {}).get(k2, dflt)]. *)
Definition py_get2 (v : pyval) (k1 k2 : string) (dflt : pyval) : result pyval :=
  inner ← py_get v k1 (PDict ∅);
  py_get inner k2 dflt.

Definition parse_fixture (fixture_data : gmap string pyval)
  : result (gmap string pyval) :=
  let fixture := default (PDict ∅) (fixture_data !! "fixture") in
  let teams := default (PDict ∅) (fixture_data !! "teams") in
  let goals := default (PDict ∅) (fixture_data !! "goals") in
  let league := default (PDict ∅) (fixture_data !! "league") in
  let score := default (PDict ∅) (fixture_data !! "score") in
  date_raw ← py_get fixture "date" (PStr "");
  date_str ← py_replace_Z date_raw;
  fixture_date ← py_fromisoformat date_str;
  status_short ← py_get2 fixture "status" "short" (PStr "");
  let status := match_status status_short in
  fixture_id ← py_get fixture "id" PNone;
  let date_formatted := strftime fixture_date in
  timestamp ← py_get fixture "timestamp" PNone;
  venue ← py_get2 fixture "venue" "name" (PStr "N/A");
  venue_city ← py_get2 fixture "venue" "city" (PStr "N/A");
  status_long ← py_get2 fixture "status" "long" (PStr "");
  league_id ← py_get league "id" PNone;
  league_name ← py_get league "name" (PStr "");
  season ← py_get league "season" PNone;
  round ← py_get league "round" (PStr "");
  home_team_id ← py_get2 teams "home" "id" PNone;
  home_team_name ← py_get2 teams "home" "name" (PStr "");
  away_team_id ← py_get2 teams "away" "id" PNone;
  away_team_name ← py_get2 teams "away" "name" (PStr "");
  home_goals ← py_get goals "home" PNone;
  away_goals ← py_get goals "away" PNone;
  halftime_home ← py_get2 score "halftime" "home" PNone;
  halftime_away ← py_get2 score "halftime" "away" PNone;
  fulltime_home ← py_get2 score "fulltime" "home" PNone;
  fulltime_away ← py_get2 score "fulltime" "away" PNone;
  mret (list_to_map [
    ("fixture_id", fixture_id);
    ("date", PDatetime fixture_date);
    ("date_formatted", PStr date_formatted);
    ("timestamp", timestamp);
    ("venue", venue);
    ("venue_city", venue_city);
    ("status", PStr status);
    ("status_long", status_long);
    ("league_id", league_id);
    ("league_name", league_name);
    ("season", season);
    ("round", round);
    ("home_team_id", home_team_id);
    ("home_team_name", home_team_name);
    ("away_team_id", away_team_id);
    ("away_team_name", away_team_name);
    ("home_goals", home_goals);
    ("away_goals", away_goals);
    ("halftime_home", halftime_home);
    ("halftime_away", halftime_away);
    ("fulltime_home", fulltime_home);
    ("fulltime_away", fulltime_away)]).

(** [d.get(k)] on a dict: [None] when the key is absent. *)
Definition dict_get (d : gmap string pyval) (k : string) : pyval :=
  default PNone (d !! k).

End Normalizer.

(** ** SQL values and three-valued conditions *)

Inductive sqlval :=
| SNull
| SInt (z : Z)
| SText (s : string).

#[global] Instance sqlval_eq_dec : EqDecision sqlval.
Proof. solve_decision. Defined.

(** SQLite's sort order: NULL, then integers, then text (bytewise). *)
Definition sql_compare (a b : sqlval) : comparison :=
  match a, b with
  | SNull, SNull => Eq
  | SNull, _ => Lt
  | _, SNull => Gt
  | SInt x, SInt y => Z.compare x y
  | SInt _, SText _ => Lt
  | SText _, SInt _ => Gt
  | SText x, SText y => String.compare x y
  end.

Definition sql_leb (a b : sqlval) : bool :=
  match sql_compare a b with
  | Gt => false
  | _ => true
  end.

(** [a = b], [a < b], [a > b]: NULL when an operand is NULL. *)
Definition sql_cmp_op (test : comparison → bool) (a b : sqlval) : option bool :=
  match a, b with
  | SNull, _ | _, SNull => None
  | _, _ => Some (test (sql_compare a b))
  end.

Definition sql_eq : sqlval → sqlval → option bool :=
  sql_cmp_op (λ c, match c with Eq => true | _ => false end).
Definition sql_lt : sqlval → sqlval → option bool :=
  sql_cmp_op (λ c, match c with Lt => true | _ => false end).
Definition sql_gt : sqlval → sqlval → option bool :=
  sql_cmp_op (λ c, match c with Gt => true | _ => false end).

Definition sql_and (a b : option bool) : option bool :=
  match a, b with
  | Some false, _ | _, Some false => Some false
  | Some true, Some true => Some true
  | _, _ => None
  end.

Definition sql_or (a b : option bool) : option bool :=
  match a, b with
  | Some true, _ | _, Some true => Some true
  | Some false, Some false => Some false
  | _, _ => None
  end.

(** A WHERE clause keeps a row, and a CASE WHEN takes its branch, only
    when the condition is true (neither false nor NULL). *)
Definition sql_true (c : option bool) : bool :=
  match c with
  | Some true => true
  | _ => false
  end.

(** [IS NOT NULL]. *)
Definition sql_is_not_null (a : sqlval) : bool :=
  match a with
  | SNull => false
  | _ => true
  end.

(** [SUM] over a column of integers: NULL on no rows. *)
Definition sql_sum (l : list Z) : option Z :=
  match l with
  | [] => None
  | _ => Some (foldr Z.add 0 l)
  end.

(** Python's [x or 0] on the fetched sum. *)
Definition or_zero (x : option Z) : Z :=
  match x with
  | None => 0
  | Some n => if Z.eqb n 0 then 0 else n
  end.

(** ** The schema *)

(** The columns of [fixtures] other than the key and the two defaults. *)
Record fixture_cols := {
  c_date : sqlval;
  c_timestamp : sqlval;
  c_venue : sqlval;
  c_venue_city : sqlval;
  c_status : sqlval;
  c_status_long : sqlval;
  c_league_id : sqlval;
  c_season : sqlval;
  c_round : sqlval;
  c_home_team_id : sqlval;
  c_home_team_name : sqlval;
  c_away_team_id : sqlval;
  c_away_team_name : sqlval;
  c_home_goals : sqlval;
  c_away_goals : sqlval;
  c_halftime_home : sqlval;
  c_halftime_away : sqlval;
  c_fulltime_home : sqlval;
  c_fulltime_away : sqlval
}.

(** A row of [fixtures]; [f_fixture_id] is the INTEGER PRIMARY KEY. *)
Record fixture_row := {
  f_fixture_id : Z;
  f_cols : fixture_cols;
  f_created_at : sqlval;
  f_updated_at : sqlval
}.

Definition f_date (f : fixture_row) := c_date (f_cols f).
Definition f_venue (f : fixture_row) := c_venue (f_cols f).
Definition f_venue_city (f : fixture_row) := c_venue_city (f_cols f).
Definition f_status (f : fixture_row) := c_status (f_cols f).
Definition f_home_team_id (f : fixture_row) := c_home_team_id (f_cols f).
Definition f_away_team_id (f : fixture_row) := c_away_team_id (f_cols f).
Definition f_home_goals (f : fixture_row) := c_home_goals (f_cols f).
Definition f_away_goals (f : fixture_row) := c_away_goals (f_cols f).

(** A row of [attended_matches]. *)
Record attended_row := {
  am_id : Z;
  am_fixture_id : Z;
  am_attended_date : sqlval;
  am_notes : sqlval
}.

Record store := {
  fixtures : list fixture_row;
  attended_matches : list attended_row;
  (** the AUTOINCREMENT counter of [attended_matches] *)
  attended_seq : Z
}.

(** A database file that does not exist yet. *)
Definition empty_store : store :=
  {| fixtures := []; attended_matches := []; attended_seq := 0 |}.

(** CREATE TABLE IF NOT EXISTS: an existing database is left as it is. *)
Definition initialize_database (db : option store) : store :=
  default empty_store db.

(** [with self.get_connection() as conn]: commit when the body returns,
    roll back and re-raise when it raises. *)
Definition get_connection {A} (body : store → result (A * store)) (s : store)
  : result A * store :=
  match body s with
  | Ok (a, s') => (Ok a, s')
  | Err e => (Err e, s)
  end.

(** The constraints the schema declares: PRIMARY KEY on
    [fixtures.fixture_id], UNIQUE on [attended_matches.fixture_id],
    PRIMARY KEY AUTOINCREMENT on [attended_matches.id]. *)
Definition store_wf (s : store) : Prop :=
  NoDup (f_fixture_id <$> fixtures s) ∧
  NoDup (am_fixture_id <$> attended_matches s) ∧
  NoDup (am_id <$> attended_matches s) ∧
  Forall (λ a, am_id a ≤ attended_seq s) (attended_matches s).

Section Store.
Context {DT : DatetimeLib}.

(** ** Binding Python values to statement parameters *)

Definition int64_min : Z := - 2 ^ 63.
Definition int64_max : Z := 2 ^ 63 - 1.

Definition bind_param (v : pyval) : result sqlval :=
  match v with
  | PNone => Ok SNull
  | PBool b => Ok (SInt (if b then 1 else 0))
  | PInt z =>
      if bool_decide (int64_min ≤ z ≤ int64_max) then Ok (SInt z)
      else Err OverflowError
  | PStr s => Ok (SText s)
  | PDatetime d => Ok (SText (adapt_datetime d))
  | PList _ | PDict _ => Err InterfaceError
  end.

(** ** insert_fixture *)

(** A NOT NULL column. *)
Definition not_null (v : sqlval) : result unit :=
  if sql_is_not_null v then Ok () else Err IntegrityError.

(** The rowid SQLite picks for a NULL INTEGER PRIMARY KEY: one more than
    the largest in use, 1 on an empty table (the random pick it makes
    once the largest possible rowid is in use is left out). *)
Definition new_rowid (rows : list fixture_row) : Z :=
  match rows with
  | [] => 1
  | r :: rs => foldr (λ r' m, Z.max (f_fixture_id r') m) (f_fixture_id r) rs + 1
  end.

(** The row the statement writes: the listed columns, [updated_at] set
    to CURRENT_TIMESTAMP, and [created_at], which the statement does not
    list, at its DEFAULT CURRENT_TIMESTAMP. *)
Definition new_fixture_row (rowid : Z) (cols : fixture_cols) (now : string)
  : fixture_row :=
  {| f_fixture_id := rowid;
     f_cols := cols;
     f_created_at := SText now;
     f_updated_at := SText now |}.

(** [INSERT OR REPLACE INTO fixtures (..., updated_at) VALUES (..., CURRENT_TIMESTAMP)].
    A NULL key takes a fresh rowid and a text key is a datatype
    mismatch (a text key that reads as a number, which SQLite would
    convert, is outside the model, as every affinity conversion is);
    the NOT NULL columns have no default, so a NULL there aborts the
    statement.  A row with the same key is deleted and the
    new row inserted. *)
Definition sql_insert_or_replace_fixture
    (s : store) (id : sqlval) (cols : fixture_cols) (now : string) : result store :=
  rowid ← match id with
          | SNull => Ok (new_rowid (fixtures s))
          | SInt z => Ok z
          | SText _ => Err IntegrityError
          end;
  _ ← not_null (c_date cols);
  _ ← not_null (c_status cols);
  _ ← not_null (c_home_team_name cols);
  _ ← not_null (c_away_team_name cols);
  mret {| fixtures :=
            filter (λ r, f_fixture_id r ≠ rowid) (fixtures s) ++
            [new_fixture_row rowid cols now];
          attended_matches := attended_matches s;
          attended_seq := attended_seq s |}.

(** The twenty bound parameters of the statement, in order. *)
Definition bind_fixture (fixture_data : gmap string pyval)
  : result (sqlval * fixture_cols) :=
  fixture_id ← bind_param (dict_get fixture_data "fixture_id");
  date ← bind_param (dict_get fixture_data "date");
  timestamp ← bind_param (dict_get fixture_data "timestamp");
  venue ← bind_param (dict_get fixture_data "venue");
  venue_city ← bind_param (dict_get fixture_data "venue_city");
  status ← bind_param (dict_get fixture_data "status");
  status_long ← bind_param (dict_get fixture_data "status_long");
  league_id ← bind_param (dict_get fixture_data "league_id");
  season ← bind_param (dict_get fixture_data "season");
  round ← bind_param (dict_get fixture_data "round");
  home_team_id ← bind_param (dict_get fixture_data "home_team_id");
  home_team_name ← bind_param (dict_get fixture_data "home_team_name");
  away_team_id ← bind_param (dict_get fixture_data "away_team_id");
  away_team_name ← bind_param (dict_get fixture_data "away_team_name");
  home_goals ← bind_param (dict_get fixture_data "home_goals");
  away_goals ← bind_param (dict_get fixture_data "away_goals");
  halftime_home ← bind_param (dict_get fixture_data "halftime_home");
  halftime_away ← bind_param (dict_get fixture_data "halftime_away");
  fulltime_home ← bind_param (dict_get fixture_data "fulltime_home");
  fulltime_away ← bind_param (dict_get fixture_data "fulltime_away");
  mret (fixture_id,
        {| c_date := date; c_timestamp := timestamp; c_venue := venue;
           c_venue_city := venue_city; c_status := status;
           c_status_long := status_long; c_league_id := league_id;
           c_season := season; c_round := round;
           c_home_team_id := home_team_id; c_home_team_name := home_team_name;
           c_away_team_id := away_team_id; c_away_team_name := away_team_name;
           c_home_goals := home_goals; c_away_goals := away_goals;
           c_halftime_home := halftime_home; c_halftime_away := halftime_away;
           c_fulltime_home := fulltime_home; c_fulltime_away := fulltime_away |}).

Definition insert_fixture (fixture_data : gmap string pyval) (now : string)
  : store → result bool * store :=
  get_connection (λ s,
    '(fixture_id, cols) ← bind_fixture fixture_data;
    s' ← sql_insert_or_replace_fixture s fixture_id cols now;
    mret (true, s')).

(** ** mark_attended, unmark_attended *)

Definition sql_opt_text (x : option string) : sqlval :=
  match x with
  | None => SNull
  | Some t => SText t
  end.

(** [INSERT INTO attended_matches (fixture_id, notes) VALUES (?, ?)]:
    UNIQUE(fixture_id) rejects a second row for the fixture; [id] comes
    from the AUTOINCREMENT counter and [attended_date] from its DEFAULT. *)
Definition sql_insert_attended
    (s : store) (fixture_id : Z) (notes : option string) (now : string) : result store :=
  if bool_decide (Exists (λ a, am_fixture_id a = fixture_id) (attended_matches s))
  then Err IntegrityError
  else
    let id := attended_seq s + 1 in
    Ok {| fixtures := fixtures s;
          attended_matches :=
            attended_matches s ++
            [ {| am_id := id; am_fixture_id := fixture_id;
                 am_attended_date := SText now;
                 am_notes := sql_opt_text notes |} ];
          attended_seq := id |}.

Definition mark_attended (fixture_id : Z) (notes : option string) (now : string)
  : store → result bool * store :=
  get_connection (λ s,
    match sql_insert_attended s fixture_id notes now with
    | Ok s' => Ok (true, s')
    | Err IntegrityError => Ok (false, s)
    | Err e => Err e
    end).

Definition unmark_attended (fixture_id : Z) : store → result bool * store :=
  get_connection (λ s,
    let kept := filter (λ a, am_fixture_id a ≠ fixture_id) (attended_matches s) in
    let rowcount := (length (attended_matches s) - length kept)%nat in
    Ok (bool_decide (0 < rowcount)%nat,
        {| fixtures := fixtures s;
           attended_matches := kept;
           attended_seq := attended_seq s |})).

End Store.

(** The stores the program can be in: the empty database and whatever
    the three writing methods make of a store. *)
Section Reachable.
Context {DT : DatetimeLib}.

Inductive reachable : store → Prop :=
| reach_init : reachable empty_store
| reach_insert fd now s :
    reachable s → reachable (insert_fixture fd now s).2
| reach_mark fixture_id notes now s :
    reachable s → reachable (mark_attended fixture_id notes now s).2
| reach_unmark fixture_id s :
    reachable s → reachable (unmark_attended fixture_id s).2.

End Reachable.

(** ** get_fixtures *)

(** Python truthiness of the optional arguments: [None], [0] and the
    empty string are false. *)
Definition truthy_int (x : option Z) : option Z :=
  match x with
  | Some z => if Z.eqb z 0 then None else Some z
  | None => None
  end.

Definition truthy_str (x : option string) : option string :=
  match x with
  | Some t => if String.eqb t "" then None else Some t
  | None => None
  end.

(** [(f.home_team_id = ? OR f.away_team_id = ?)] with both parameters
    bound to the team id. *)
Definition team_cond (team_id : Z) (f : fixture_row) : option bool :=
  sql_or (sql_eq (f_home_team_id f) (SInt team_id))
         (sql_eq (f_away_team_id f) (SInt team_id)).

(** [f.status = ?]. *)
Definition status_cond (status : string) (f : fixture_row) : option bool :=
  sql_eq (f_status f) (SText status).

(** [fixtures f LEFT JOIN attended_matches am ON f.fixture_id = am.fixture_id]. *)
Definition left_join (fs : list fixture_row) (ams : list attended_row)
  : list (fixture_row * option attended_row) :=
  fs ≫= λ f,
    match filter (λ a, f_fixture_id f = am_fixture_id a) ams with
    | [] => [(f, None)]
    | ms => (λ a, (f, Some a)) <$> ms
    end.

(** The columns of [am] in a joined row, NULL where the join found none. *)
Definition am_fixture_id_col (am : option attended_row) : sqlval :=
  from_option (λ a, SInt (am_fixture_id a)) SNull am.
Definition am_attended_date_col (am : option attended_row) : sqlval :=
  from_option am_attended_date SNull am.
Definition am_notes_col (am : option attended_row) : sqlval :=
  from_option am_notes SNull am.

(** The WHERE clause assembled by [get_fixtures]: [1=1] and one
    conjunct per argument that is truthy. *)
Definition fixtures_where
    (team_id : option Z) (status : option string) (attended_only : bool)
    (j : fixture_row * option attended_row) : option bool :=
  let q0 := Some true in
  let q1 := match truthy_int team_id with
            | Some t => sql_and q0 (team_cond t j.1)
            | None => q0
            end in
  let q2 := match truthy_str status with
            | Some st => sql_and q1 (status_cond st j.1)
            | None => q1
            end in
  if attended_only
  then sql_and q2 (Some (sql_is_not_null (am_fixture_id_col j.2)))
  else q2.

(** [ORDER BY f.date DESC]: [x] may come before [y]. *)
Definition date_desc (x y : fixture_row * option attended_row) : Prop :=
  sql_leb (f_date y.1) (f_date x.1) = true.

#[global] Instance date_desc_dec : RelDecision date_desc.
Proof. intros x y. unfold date_desc. apply _. Defined.

(** A result row: [f.*], [attended], [am.attended_date], [am.notes]. *)
Record fixture_view := {
  v_fixture : fixture_row;
  v_attended : Z;
  v_attended_date : sqlval;
  v_notes : sqlval
}.

Definition select_view (j : fixture_row * option attended_row) : fixture_view :=
  {| v_fixture := j.1;
     v_attended := if sql_is_not_null (am_fixture_id_col j.2) then 1 else 0;
     v_attended_date := am_attended_date_col j.2;
     v_notes := am_notes_col j.2 |}.

Definition get_fixtures
    (team_id : option Z) (status : option string) (attended_only : bool)
    (s : store) : list fixture_view :=
  let joined := left_join (fixtures s) (attended_matches s) in
  let kept := filter (λ j, sql_true (fixtures_where team_id status attended_only j) = true) joined in
  select_view <$> merge_sort date_desc kept.

(** ** get_statistics *)

(** [attended_matches am JOIN fixtures f ON am.fixture_id = f.fixture_id]. *)
Definition inner_join (ams : list attended_row) (fs : list fixture_row)
  : list (attended_row * fixture_row) :=
  ams ≫= λ a,
    (λ f, (a, f)) <$> filter (λ f, am_fixture_id a = f_fixture_id f) fs.

(** [CASE WHEN c THEN 1 ELSE 0 END]. *)
Definition case_when (c : option bool) : Z :=
  if sql_true c then 1 else 0.

Definition win_case (team_id : Z) (f : fixture_row) : Z :=
  case_when
    (sql_or (sql_and (sql_eq (f_home_team_id f) (SInt team_id))
                     (sql_gt (f_home_goals f) (f_away_goals f)))
            (sql_and (sql_eq (f_away_team_id f) (SInt team_id))
                     (sql_gt (f_away_goals f) (f_home_goals f)))).

Definition draw_case (f : fixture_row) : Z :=
  case_when
    (sql_and (sql_eq (f_home_goals f) (f_away_goals f))
             (sql_eq (f_status f) (SText "finished"))).

Definition loss_case (team_id : Z) (f : fixture_row) : Z :=
  case_when
    (sql_or (sql_and (sql_eq (f_home_team_id f) (SInt team_id))
                     (sql_lt (f_home_goals f) (f_away_goals f)))
            (sql_and (sql_eq (f_away_team_id f) (SInt team_id))
                     (sql_lt (f_away_goals f) (f_home_goals f)))).

(** The rows of the wins/draws/losses query:
    [WHERE (f.home_team_id = ? OR f.away_team_id = ?) AND f.status = 'finished']. *)
Definition finished_rows (team_id : Z) (s : store) : list fixture_row :=
  snd <$> filter (λ j : attended_row * fixture_row,
                    sql_true (sql_and (team_cond team_id j.2)
                                      (sql_eq (f_status j.2) (SText "finished"))) = true)
                 (inner_join (attended_matches s) (fixtures s)).

(** The rows of the total and of the stadium query: the join, restricted
    to the team when the argument is truthy. *)
Definition attended_rows (team_id : option Z) (s : store) : list fixture_row :=
  let joined := inner_join (attended_matches s) (fixtures s) in
  snd <$> match truthy_int team_id with
          | Some t => filter (λ j : attended_row * fixture_row,
                                sql_true (team_cond t j.2) = true) joined
          | None => joined
          end.

(** [GROUP BY f.venue, f.venue_city] with [COUNT( * )]: one entry per
    distinct pair, in order of first occurrence. *)
Fixpoint bump (k : sqlval * sqlval) (acc : list (sqlval * sqlval * Z))
  : list (sqlval * sqlval * Z) :=
  match acc with
  | [] => [(k, 1)]
  | (k', n) :: rest =>
      if decide (k = k') then (k', n + 1) :: rest
      else (k', n) :: bump k rest
  end.

Definition group_count (keys : list (sqlval * sqlval)) : list (sqlval * sqlval * Z) :=
  foldl (λ acc k, bump k acc) [] keys.

(** [ORDER BY visits DESC]. *)
Definition visits_desc (x y : sqlval * sqlval * Z) : Prop := y.2 ≤ x.2.

#[global] Instance visits_desc_dec : RelDecision visits_desc.
Proof. intros x y. unfold visits_desc. apply _. Defined.

Record stats := {
  total_attended : Z;
  wins : option Z;
  draws : option Z;
  losses : option Z;
  stadiums : list (sqlval * sqlval * Z)
}.

Definition get_statistics (team_id : option Z) (s : store) : stats :=
  let total := Z.of_nat (length (attended_rows team_id s)) in
  let wdl :=
    match truthy_int team_id with
    | Some t =>
        let rows := finished_rows t s in
        Some (or_zero (sql_sum (win_case t <$> rows)),
              or_zero (sql_sum (draw_case <$> rows)),
              or_zero (sql_sum (loss_case t <$> rows)))
    | None => None
    end in
  {| total_attended := total;
     wins := (λ r, r.1.1) <$> wdl;
     draws := (λ r, r.1.2) <$> wdl;
     losses := (λ r, r.2) <$> wdl;
     stadiums :=
       merge_sort visits_desc
         (group_count ((λ f, (f_venue f, f_venue_city f)) <$> attended_rows team_id s)) |}.

(** ** Specification-side vocabulary for the queries *)

(** Two result rows in descending order of date. *)
Definition view_date_desc (v w : fixture_view) : Prop :=
  sql_leb (f_date (v_fixture w)) (f_date (v_fixture v)) = true.

(** The team played the fixture, at home or away. *)
Definition played (team_id : Z) (f : fixture_row) : Prop :=
  f_home_team_id f = SInt team_id ∨ f_away_team_id f = SInt team_id.

#[global] Instance played_dec team_id f : Decision (played team_id f).
Proof. unfold played. apply _. Defined.

(** The fixture carries an attendance mark. *)
Definition marked (s : store) (f : fixture_row) : Prop :=
  ∃ a, a ∈ attended_matches s ∧ am_fixture_id a = f_fixture_id f.



(** ** The sync orchestrator *)

Record competition := { comp_id : Z; comp_name : string }.

Definition COMPETITIONS : gmap string competition :=
  list_to_map [
    ("brasileirao_a", {| comp_id := 71; comp_name := "Brasileirão Série A" |});
    ("brasileirao_b", {| comp_id := 72; comp_name := "Brasileirão Série B" |});
    ("copa_do_brasil", {| comp_id := 73; comp_name := "Copa do Brasil" |});
    ("libertadores", {| comp_id := 13; comp_name := "Copa Libertadores" |});
    ("sul_americana", {| comp_id := 11; comp_name := "Copa Sul-Americana" |})].

Section Service.
Context {DT : DatetimeLib}.

(** The HTTP collaborator [api_client.get_team_fixtures team_id league_id season]. *)
Variable get_team_fixtures : Z → Z → Z → result (list (gmap string pyval)).

(** The value of CURRENT_TIMESTAMP during the k-th upsert of a sync. *)
Variable clock : nat → string.

(** The [for fixture_raw in fixtures] loop, from the k-th record on:
    the count so far, or the exception that ended the loop, with the
    store as the committed upserts left it. *)
Fixpoint sync_loop (k : nat) (fixtures : list (gmap string pyval))
    (new_count : Z) (s : store) : result Z * store :=
  match fixtures with
  | [] => (Ok new_count, s)
  | fixture_raw :: rest =>
      match parse_fixture fixture_raw with
      | Err e => (Err e, s)
      | Ok fixture_data =>
          match insert_fixture fixture_data (clock k) s with
          | (Err e, s') => (Err e, s')
          | (Ok inserted, s') =>
              sync_loop (S k) rest
                (if inserted then new_count + 1 else new_count) s'
          end
      end
  end.

(** The body of the [try] block. *)
Definition sync_body (team_id : Z) (competition : string) (season : Z)
    (s : store) : result (Z * Z) * store :=
  match COMPETITIONS !! competition with
  | None => (Err ValueError, s)
  | Some comp_data =>
      match get_team_fixtures team_id (comp_id comp_data) season with
      | Err e => (Err e, s)
      | Ok fixtures =>
          match sync_loop 0 fixtures 0 s with
          | (Ok new_count, s') => (Ok (Z.of_nat (length fixtures), new_count), s')
          | (Err e, s') => (Err e, s')
          end
      end
  end.

(** [except Exception: return 0, 0]. *)
Definition sync_team_fixtures (team_id : Z) (competition : string) (season : Z)
    (s : store) : (Z * Z) * store :=
  match sync_body team_id competition season s with
  | (Ok r, s') => (r, s')
  | (Err _, s') => ((0, 0), s')
  end.

End Service.

(** ** A datetime library for the provider's timestamps

    An instance of [DatetimeLib] that reads the shape the provider
    sends, [YYYY-MM-DDTHH:MM:SS] with an optional [+HH:MM] or [-HH:MM]
    offset, and rejects every other string. *)

Record iso_datetime := {
  dt_year : Z; dt_month : Z; dt_day : Z;
  dt_hour : Z; dt_minute : Z; dt_second : Z;
  (** the UTC offset in minutes, if the datetime is aware *)
  dt_offset : option Z
}.

Definition digit (c : ascii) : option Z :=
  let n := Z.of_N (N_of_ascii c) in
  if bool_decide (48 ≤ n ≤ 57) then Some (n - 48) else None.

Definition digits2 (a b : ascii) : option Z :=
  x ← digit a; y ← digit b; Some (10 * x + y).

Definition digits4 (a b c d : ascii) : option Z :=
  x ← digits2 a b; y ← digits2 c d; Some (100 * x + y).

Definition leap_year (y : Z) : bool :=
  bool_decide (y mod 4 = 0 ∧ (y mod 100 ≠ 0 ∨ y mod 400 = 0)).

Definition days_in_month (y m : Z) : Z :=
  if bool_decide (m = 2) then (if leap_year y then 29 else 28)
  else if bool_decide (m ∈ [4; 6; 9; 11]) then 30
  else 31.

Definition iso_offset (l : list ascii) : option (option Z) :=
  match l with
  | [] => Some None
  | [sign; h1; h2; colon; m1; m2] =>
      h ← digits2 h1 h2;
      m ← digits2 m1 m2;
      guard (colon = ":"%char ∧ h < 24 ∧ m < 60);;
      if Ascii.eqb sign "+" then Some (Some (60 * h + m))
      else if Ascii.eqb sign "-" then Some (Some (- (60 * h + m)))
      else None
  | _ => None
  end.

Definition iso_fromisoformat (s : string) : option iso_datetime :=
  match list_ascii_of_string s with
  | y1 :: y2 :: y3 :: y4 :: d1 :: mo1 :: mo2 :: d2 :: da1 :: da2 :: _ ::
    h1 :: h2 :: c1 :: mi1 :: mi2 :: c2 :: s1 :: s2 :: rest =>
      year ← digits4 y1 y2 y3 y4;
      month ← digits2 mo1 mo2;
      day ← digits2 da1 da2;
      hour ← digits2 h1 h2;
      minute ← digits2 mi1 mi2;
      second ← digits2 s1 s2;
      offset ← iso_offset rest;
      guard (d1 = "-"%char ∧ d2 = "-"%char ∧ c1 = ":"%char ∧ c2 = ":"%char ∧
             1 ≤ year ∧ 1 ≤ month ≤ 12 ∧ 1 ≤ day ≤ days_in_month year month ∧
             hour < 24 ∧ minute < 60 ∧ second < 60);;
      Some {| dt_year := year; dt_month := month; dt_day := day;
              dt_hour := hour; dt_minute := minute; dt_second := second;
              dt_offset := offset |}
  | _ => None
  end.

Definition show_digit (n : Z) : ascii := ascii_of_N (Z.to_N (48 + n mod 10)).

Definition show2 (n : Z) : string :=
  String (show_digit (n / 10)) (String (show_digit n) "").

Definition show4 (n : Z) : string := show2 (n / 100) +:+ show2 (n mod 100).

Definition iso_strftime (d : iso_datetime) : string :=
  show2 (dt_day d) +:+ "/" +:+ show2 (dt_month d) +:+ "/" +:+ show4 (dt_year d)
  +:+ " " +:+ show2 (dt_hour d) +:+ ":" +:+ show2 (dt_minute d).

Definition iso_adapt (d : iso_datetime) : string :=
  show4 (dt_year d) +:+ "-" +:+ show2 (dt_month d) +:+ "-" +:+ show2 (dt_day d)
  +:+ " " +:+ show2 (dt_hour d) +:+ ":" +:+ show2 (dt_minute d) +:+ ":"
  +:+ show2 (dt_second d) +:+
  match dt_offset d with
  | None => ""
  | Some o =>
      (if bool_decide (0 ≤ o) then "+" else "-")
      +:+ show2 (Z.abs o / 60) +:+ ":" +:+ show2 (Z.abs o mod 60)
  end.

Definition iso_lib : DatetimeLib :=
  {| datetime := iso_datetime;
     fromisoformat := iso_fromisoformat;
     strftime := iso_strftime;
     adapt_datetime := iso_adapt;
     fromisoformat_empty := eq_refl |}.

(** ** Sample data *)

Section Samples.
#[local] Existing Instance iso_lib.

(** A raw record as the provider sends it. *)
Definition raw_sample (id : Z) (date short : string) (home away : Z)
    (home_goals away_goals : pyval) : gmap string pyval :=
  list_to_map [
    ("fixture", PDict (list_to_map [
        ("id", PInt id); ("date", PStr date); ("timestamp", PInt 1713043800);
        ("venue", PDict (list_to_map [("name", PStr "Maracanã"); ("city", PStr "Rio de Janeiro")]));
        ("status", PDict (list_to_map [("short", PStr short); ("long", PStr "Match")]))]));
    ("league", PDict (list_to_map [
        ("id", PInt 71); ("name", PStr "Serie A"); ("season", PInt 2024);
        ("round", PStr "Regular Season - 1")]));
    ("teams", PDict (list_to_map [
        ("home", PDict (list_to_map [("id", PInt home); ("name", PStr "Home FC")]));
        ("away", PDict (list_to_map [("id", PInt away); ("name", PStr "Away FC")]))]));
    ("goals", PDict (list_to_map [("home", home_goals); ("away", away_goals)]));
    ("score", PDict (list_to_map [
        ("halftime", PDict (list_to_map [("home", home_goals); ("away", away_goals)]));
        ("fulltime", PDict (list_to_map [("home", home_goals); ("away", away_goals)]))]))].

(** The normalized form of a raw record that [parse_fixture] accepts. *)
Definition normalized (raw : gmap string pyval) : gmap string pyval :=
  match parse_fixture raw with
  | Ok fd => fd
  | Err _ => ∅
  end.

(** The store after a command, whatever it returned. *)
Definition after {A} (cmd : store → result A * store) (s : store) : store :=
  (cmd s).2.

(** A raw record whose [fixture] object has no date. *)
Definition raw_undated : gmap string pyval :=
  list_to_map [
    ("fixture", PDict (list_to_map [
        ("id", PInt 100); ("timestamp", PInt 1713043800);
        ("status", PDict (list_to_map [("short", PStr "NS"); ("long", PStr "Not Started")]))]));
    ("teams", PDict (list_to_map [
        ("home", PDict (list_to_map [("id", PInt 1); ("name", PStr "Home FC")]));
        ("away", PDict (list_to_map [("id", PInt 2); ("name", PStr "Away FC")]))]))].

Definition kickoff : string := "2024-04-13T21:30:00+00:00".
Definition kickoff_datetime : iso_datetime :=
  {| dt_year := 2024; dt_month := 4; dt_day := 13;
     dt_hour := 21; dt_minute := 30; dt_second := 0;
     dt_offset := Some 0 |}.
Definition first_sync_time : string := "2024-04-01 10:00:00".
Definition second_sync_time : string := "2024-04-14 09:00:00".

(** Fixture 100, team 1 at home against team 2: before kick-off, after
    a 2-1 home win, and reported finished without scores. *)
Definition fixture_scheduled : gmap string pyval :=
  normalized (raw_sample 100 kickoff "NS" 1 2 PNone PNone).
Definition fixture_finished : gmap string pyval :=
  normalized (raw_sample 100 kickoff "FT" 1 2 (PInt 2) (PInt 1)).

(** The store after a first sync of the scheduled fixture. *)
Definition store_first_sync : store :=
  after (insert_fixture fixture_scheduled first_sync_time) empty_store.

(** ... after the finished fixture was synced and marked as attended. *)
Definition store_attended : store :=
  after (mark_attended 100 (Some "great match") second_sync_time)
    (after (insert_fixture fixture_finished second_sync_time) store_first_sync).


(** A mark for a fixture that was never synced. *)
Definition store_orphan_mark : store :=
  after (mark_attended 7 None first_sync_time) empty_store.

(** The finished fixture without its date, and without its id. *)
Definition fixture_without_date : gmap string pyval :=
  delete "date" fixture_finished.
Definition fixture_without_id : gmap string pyval :=
  <["fixture_id" := PNone]> fixture_finished.

(** What the provider answers in the samples: fixture 100, a record
    without date, fixture 101. *)
Definition raw_first : gmap string pyval :=
  raw_sample 100 kickoff "FT" 1 2 (PInt 2) (PInt 1).
Definition raw_second : gmap string pyval :=
  raw_sample 101 kickoff "NS" 2 1 PNone PNone.
Definition provider_with_undated (team_id league season : Z)
  : result (list (gmap string pyval)) :=
  Ok ([raw_first] ++ raw_undated :: [raw_second]).
Definition provider_sound (team_id league season : Z)
  : result (list (gmap string pyval)) :=
  Ok [raw_first; raw_second].
Definition sample_clock (k : nat) : string := second_sync_time.

(** The parameters the finished fixture is bound to, after the key. *)
Definition cols_finished : fixture_cols :=
  {| c_date := SText "2024-04-13 21:30:00+00:00";
     c_timestamp := SInt 1713043800;
     c_venue := SText "Maracanã";
     c_venue_city := SText "Rio de Janeiro";
     c_status := SText "finished";
     c_status_long := SText "Match";
     c_league_id := SInt 71;
     c_season := SInt 2024;
     c_round := SText "Regular Season - 1";
     c_home_team_id := SInt 1;
     c_home_team_name := SText "Home FC";
     c_away_team_id := SInt 2;
     c_away_team_name := SText "Away FC";
     c_home_goals := SInt 2;
     c_away_goals := SInt 1;
     c_halftime_home := SInt 2;
     c_halftime_away := SInt 1;
     c_fulltime_home := SInt 2;
     c_fulltime_away := SInt 1 |}.

End Samples.



(** ** Specification-side vocabulary for raw records *)

Section RawShape.
Context {DT : DatetimeLib}.

(** The value found by following [path] from [v] through nested
    objects, [None] when a key on the way is missing. *)
Fixpoint path_lookup (v : pyval) (path : list string) : option pyval :=
  match path with
  | [] => Some v
  | k :: rest =>
      match v with
      | PDict d => d !! k ≫= λ v', path_lookup v' rest
      | _ => None
      end
  end.

(** A nested field of a raw record, with the default for a missing one. *)
Definition raw_field (raw : gmap string pyval) (path : list string) (dflt : pyval)
  : pyval :=
  default dflt (path_lookup (PDict raw) path).

(** The short status code of a raw record: the value at
    [fixture.status.short], the empty string when there is none. *)
Definition short_code (raw : gmap string pyval) : pyval :=
  raw_field raw ["fixture"; "status"; "short"] (PStr "").

Definition absent_or_object (v : option pyval) : Prop :=
  match v with
  | None | Some (PDict _) => True
  | Some _ => False
  end.

(** The places where [parse_fixture] expects a nested object. *)
Definition containers : list (list string) :=
  [ ["fixture"]; ["teams"]; ["goals"]; ["league"]; ["score"];
    ["fixture"; "status"]; ["fixture"; "venue"];
    ["teams"; "home"]; ["teams"; "away"];
    ["score"; "halftime"]; ["score"; "fulltime"] ].

(** Every nested object of the record is absent or an object. *)
Definition well_shaped (raw : gmap string pyval) : Prop :=
  Forall (λ p, absent_or_object (path_lookup (PDict raw) p)) containers.

(** The fields [parse_fixture] copies: key of the result, path in the
    raw record, default. *)
Definition copied_fields : list (string * list string * pyval) :=
  [ ("fixture_id", ["fixture"; "id"], PNone);
    ("timestamp", ["fixture"; "timestamp"], PNone);
    ("venue", ["fixture"; "venue"; "name"], PStr "N/A");
    ("venue_city", ["fixture"; "venue"; "city"], PStr "N/A");
    ("status_long", ["fixture"; "status"; "long"], PStr "");
    ("league_id", ["league"; "id"], PNone);
    ("league_name", ["league"; "name"], PStr "");
    ("season", ["league"; "season"], PNone);
    ("round", ["league"; "round"], PStr "");
    ("home_team_id", ["teams"; "home"; "id"], PNone);
    ("home_team_name", ["teams"; "home"; "name"], PStr "");
    ("away_team_id", ["teams"; "away"; "id"], PNone);
    ("away_team_name", ["teams"; "away"; "name"], PStr "");
    ("home_goals", ["goals"; "home"], PNone);
    ("away_goals", ["goals"; "away"], PNone);
    ("halftime_home", ["score"; "halftime"; "home"], PNone);
    ("halftime_away", ["score"; "halftime"; "away"], PNone);
    ("fulltime_home", ["score"; "fulltime"; "home"], PNone);
    ("fulltime_away", ["score"; "fulltime"; "away"], PNone) ].

End RawShape.

(** ** The other methods of the service *)

(** Python's [l[:n]]: the first [n] elements, or all but the last [-n]
    when [n] is negative. *)
Definition py_slice_to {A} (n : Z) (l : list A) : list A :=
  if bool_decide (0 ≤ n) then take (Z.to_nat n) l
  else take (length l - Z.to_nat (- n)) l.

(** [list_fixtures]: the query, cut by [fixtures[:limit]] when [limit]
    is truthy. *)
Definition list_fixtures
    (team_id : option Z) (status : option string) (attended_only : bool)
    (limit : option Z) (s : store) : list fixture_view :=
  let fixtures := get_fixtures team_id status attended_only s in
  match truthy_int limit with
  | Some n => py_slice_to n fixtures
  | None => fixtures
  end.

(** [mark_match_attended] and [unmark_match_attended]: the store's
    answer, or False when it raised. *)
Definition mark_match_attended (fixture_id : Z) (notes : option string) (now : string)
    (s : store) : bool * store :=
  match mark_attended fixture_id notes now s with
  | (Ok success, s') => (success, s')
  | (Err _, s') => (false, s')
  end.

Definition unmark_match_attended (fixture_id : Z) (s : store) : bool * store :=
  match unmark_attended fixture_id s with
  | (Ok success, s') => (success, s')
  | (Err _, s') => (false, s')
  end.

Definition get_attendance_statistics (team_id : option Z) (s : store) : stats :=
  get_statistics team_id s.

Section TeamSearch.
Context {DT : DatetimeLib}.

(** [v[k]] for a string key [k]: [None] stands for the KeyError of a
    dict without the key and the TypeError of any other value. *)
Definition py_getitem (v : pyval) (k : string) : option pyval :=
  match v with
  | PDict d => d !! k
  | _ => None
  end.

(** The accesses made while a search result is printed:
    [result['team']], then [team['name']] and [team['id']]
    ([team.get('country', 'N/A')] cannot fail once [team['name']] has
    succeeded). *)
Definition print_result (result : pyval) : option unit :=
  team ← py_getitem result "team";
  _ ← py_getitem team "name";
  _ ← py_getitem team "id";
  Some ().

(** The HTTP collaborator [api_client.search_team team_name country]. *)
Variable search_team : string → string → result (list pyval).

(** [search_and_select_team]: the value returned, [None] being
    Python's None; every exception ends in [return None].  What is
    printed is left out, the accesses that printing makes are not. *)
Definition search_and_select_team (team_name country : string) : option pyval :=
  match search_team team_name country with
  | Err _ => None
  | Ok teams =>
      match teams with
      | [] => None
      | [result] =>
          team ← py_getitem result "team";
          _ ← py_getitem team "name";
          _ ← py_getitem team "id";
          Some team
      | first :: _ =>
          _ ← mapM print_result teams;
          selected_team ← py_getitem first "team";
          _ ← py_getitem selected_team "name";
          Some selected_team
      end
  end.

End TeamSearch.

(** ** Specification-side vocabulary for normalized records *)

(** The four canonical statuses. *)
Definition canonical_statuses : list string :=
  ["scheduled"; "in_progress"; "finished"; "postponed"].

(** The keys of the dict [parse_fixture] builds. *)
Definition normalized_keys : list string :=
  ["fixture_id"; "date"; "date_formatted"; "timestamp"; "venue"; "venue_city";
   "status"; "status_long"; "league_id"; "league_name"; "season"; "round";
   "home_team_id"; "home_team_name"; "away_team_id"; "away_team_name";
   "home_goals"; "away_goals"; "halftime_home"; "halftime_away";
   "fulltime_home"; "fulltime_away"].

(** ** Specification-side vocabulary for column affinity

    SQLite converts a value to the affinity of its column when it
    stores it: in a column declared INTEGER or TIMESTAMP (INTEGER and
    NUMERIC affinity) a text that is a well-formed number becomes a
    number, and in a TEXT column a number becomes its text.  The store
    keeps a value as it was bound; these predicates pick out the values
    that SQLite keeps that way too. *)

(** The characters a well-formed integer or real literal is made of,
    and the white space SQLite allows around it. *)
Definition numeric_chars : list ascii :=
  list_ascii_of_string "0123456789+-.eE "
  ++ (ascii_of_nat <$> [9; 10; 11; 12; 13]%nat).

(** The text has only such characters, so it may be a number; a text
    with any other character is none. *)
Definition may_be_numeric (t : string) : bool :=
  forallb (λ c, bool_decide (c ∈ numeric_chars)) (list_ascii_of_string t).

(** A column of INTEGER or NUMERIC affinity keeps the value. *)
Definition kept_as_number (v : sqlval) : bool :=
  match v with
  | SNull | SInt _ => true
  | SText t => negb (may_be_numeric t)
  end.

(** A column of TEXT affinity keeps the value. *)
Definition kept_as_text (v : sqlval) : bool :=
  match v with
  | SNull | SText _ => true
  | SInt _ => false
  end.

(** Every column of [fixtures] keeps the value bound to it, by the
    declared type of the column. *)
Definition stored_as_bound (cols : fixture_cols) : bool :=
  kept_as_number (c_date cols) && kept_as_number (c_timestamp cols) &&
  kept_as_text (c_venue cols) && kept_as_text (c_venue_city cols) &&
  kept_as_text (c_status cols) && kept_as_text (c_status_long cols) &&
  kept_as_number (c_league_id cols) && kept_as_number (c_season cols) &&
  kept_as_text (c_round cols) &&
  kept_as_number (c_home_team_id cols) && kept_as_text (c_home_team_name cols) &&
  kept_as_number (c_away_team_id cols) && kept_as_text (c_away_team_name cols) &&
  kept_as_number (c_home_goals cols) && kept_as_number (c_away_goals cols) &&
  kept_as_number (c_halftime_home cols) && kept_as_number (c_halftime_away cols) &&
  kept_as_number (c_fulltime_home cols) && kept_as_number (c_fulltime_away cols).
(** * Properties *)

Set Warnings "-clear-no-such-hyp".

(** ** The result monad *)

Lemma bind_Ok {A B} (m : result A) (f : A → result B) (b : B) :
  m ≫= f = Ok b ↔ ∃ a, m = Ok a ∧ f a = Ok b.
Proof.
  destruct m as [a|e]; simpl; split.
  - intros H. by exists a.
  - by intros (a' & [= <-] & H).
  - discriminate.
  - by intros (a' & [=] & _).
Qed.

Lemma Ok_inj {A} (a b : A) : Ok a = Ok b → a = b.
Proof. by intros [= ->]. Qed.

(** Peels the outermost bind of a hypothesis [m ≫= f = Ok b]. *)
Ltac inv_bind H :=
  let a := fresh "v" in
  let Ha := fresh "Hv" in
  apply bind_Ok in H as (a & Ha & H).

(** ** The normalizer *)

Section NormalizerProps.
Context {DT : DatetimeLib}.

Lemma py_in_spec (v : pyval) (codes : list string) :
  py_in v codes = true ↔ v ∈ PStr <$> codes.
Proof.
  rewrite list_elem_of_fmap.
  destruct v; simpl; try (split; [discriminate | by intros (? & [=] & _)]).
  rewrite bool_decide_eq_true. split.
  - intros H. by exists s.
  - by intros (? & [= ->] & H).
Qed.

Lemma py_get_Ok v k dflt r :
  py_get v k dflt = Ok r ↔ ∃ d, v = PDict d ∧ r = default dflt (d !! k).
Proof.
  destruct v; simpl; split; try discriminate; try by intros (? & [=] & _).
  - intros [= <-]. by eexists.
  - by intros (? & [= <-] & ->).
Qed.

Lemma PStr_elem_of (c : string) (codes : list string) :
  PStr c ∈ PStr <$> codes ↔ c ∈ codes.
Proof.
  rewrite list_elem_of_fmap. split.
  - by intros (? & [= ->] & H).
  - intros H. by exists c.
Qed.

Lemma match_status_spec (code : pyval) :
  (code ∈ PStr <$> ["FT"; "AET"; "PEN"] → match_status code = "finished") ∧
  (code ∈ PStr <$> ["1H"; "2H"; "HT"; "ET"; "P"; "LIVE"] →
   match_status code = "in_progress") ∧
  (code ∈ PStr <$> ["TBD"; "NS"] → match_status code = "scheduled") ∧
  (code ∉ PStr <$> ["FT"; "AET"; "PEN"; "1H"; "2H"; "HT"; "ET"; "P"; "LIVE"; "TBD"; "NS"] →
   match_status code = "postponed").
Proof.
  destruct code as [| | |c| | |];
    try (repeat split; try reflexivity;
         by intros (? & [=] & _)%list_elem_of_fmap).
  rewrite !PStr_elem_of. unfold match_status, py_in.
  repeat case_bool_decide; repeat split; intros Hin; try reflexivity;
    exfalso; set_solver.
Qed.

End NormalizerProps.

Section NormalizerTotality.
Context {DT : DatetimeLib}.

Lemma path_lookup_1 (d : gmap string pyval) k :
  path_lookup (PDict d) [k] = d !! k.
Proof. simpl. by destruct (d !! k). Qed.

Lemma path_lookup_cons (d d' : gmap string pyval) k p :
  d !! k = Some (PDict d') →
  path_lookup (PDict d) (k :: p) = path_lookup (PDict d') p.
Proof. intros H. simpl. by rewrite H. Qed.

Lemma path_lookup_absent (d : gmap string pyval) k p :
  d !! k = None → path_lookup (PDict d) (k :: p) = None.
Proof. intros H. simpl. by rewrite H. Qed.

(** [d.get(k, {})] on a well-shaped record is an object with the same
    nested fields. *)
Lemma container_get (d : gmap string pyval) k :
  absent_or_object (path_lookup (PDict d) [k]) →
  ∃ d', default (PDict ∅) (d !! k) = PDict d' ∧
        ∀ k' p, path_lookup (PDict d) (k :: k' :: p) = path_lookup (PDict d') (k' :: p).
Proof.
  rewrite path_lookup_1. destruct (d !! k) as [[]|] eqn:E; try done; intros _.
  - eexists. split; [reflexivity|]. intros. by apply path_lookup_cons.
  - exists ∅. split; [reflexivity|]. intros.
    rewrite path_lookup_absent by done. simpl. by rewrite lookup_empty.
Qed.

Lemma py_get_path (d : gmap string pyval) k dflt :
  py_get (PDict d) k dflt = Ok (default dflt (path_lookup (PDict d) [k])).
Proof. by rewrite path_lookup_1. Qed.

Lemma py_get2_path (d : gmap string pyval) k1 k2 dflt :
  absent_or_object (path_lookup (PDict d) [k1]) →
  py_get2 (PDict d) k1 k2 dflt = Ok (default dflt (path_lookup (PDict d) [k1; k2])).
Proof.
  intros (d' & Hd' & Hp)%container_get. unfold py_get2.
  change (py_get (PDict d) k1 (PDict ∅)) with (Ok (default (PDict ∅) (d !! k1))).
  rewrite Hd', Hp. simpl. by destruct (d' !! k2).
Qed.

(** A record without [fixture.date] makes [fromisoformat] reject the
    default empty string. *)
Lemma parse_fixture_absent_date (raw : gmap string pyval) :
  absent_or_object (raw !! "fixture") →
  path_lookup (PDict raw) ["fixture"; "date"] = None →
  parse_fixture raw = Err ValueError.
Proof.
  intros Hf Hd. unfold parse_fixture. cbv zeta.
  destruct (container_get raw "fixture") as (d & -> & Hp).
  { by rewrite path_lookup_1. }
  rewrite (py_get_path d "date"), <- (Hp "date" []), Hd.
  cbn [mbind result_bind default from_option id py_replace_Z replace_Z].
  unfold py_fromisoformat. rewrite fromisoformat_empty. reflexivity.
Qed.

Lemma get_field1 (raw : gmap string pyval) c k dflt :
  absent_or_object (path_lookup (PDict raw) [c]) →
  py_get (default (PDict ∅) (raw !! c)) k dflt = Ok (raw_field raw [c; k] dflt).
Proof.
  intros (d & -> & Hp)%container_get. unfold raw_field.
  by rewrite py_get_path, Hp.
Qed.

Lemma get_field2 (raw : gmap string pyval) c k1 k2 dflt :
  absent_or_object (path_lookup (PDict raw) [c]) →
  absent_or_object (path_lookup (PDict raw) [c; k1]) →
  py_get2 (default (PDict ∅) (raw !! c)) k1 k2 dflt = Ok (raw_field raw [c; k1; k2] dflt).
Proof.
  intros (d & -> & Hp)%container_get H2. unfold raw_field.
  rewrite Hp in H2. by rewrite py_get2_path, Hp.
Qed.

(** A field that [parse_fixture] could read sits in an object, or in
    nothing, where the record is expected to nest one. *)
Lemma container_of_get (d : gmap string pyval) c k dflt r :
  py_get (default (PDict ∅) (d !! c)) k dflt = Ok r →
  absent_or_object (path_lookup (PDict d) [c]).
Proof.
  rewrite path_lookup_1. by destruct (d !! c) as [[]|].
Qed.

Lemma container_of_get2 (d : gmap string pyval) c k1 k2 dflt r :
  py_get2 (default (PDict ∅) (d !! c)) k1 k2 dflt = Ok r →
  absent_or_object (path_lookup (PDict d) [c]) ∧
  absent_or_object (path_lookup (PDict d) [c; k1]).
Proof.
  unfold py_get2. intros H. inv_bind H.
  pose proof (container_of_get _ _ _ _ _ Hv) as Hc. split; [exact Hc|].
  destruct (container_get d c Hc) as (d' & Hd' & Hp).
  rewrite Hd' in Hv. apply Ok_inj in Hv. subst v.
  rewrite Hp, path_lookup_1. by destruct (d' !! k1) as [[]|].
Qed.

(** C8. The status of a normalized record is decided by the short code
    of the raw record, the value found at [fixture.status.short] (the
    empty string when there is none): FT, AET and PEN give finished;
    1H, 2H, HT, ET, P and LIVE give in_progress; TBD and NS give
    scheduled; every other value, and a missing code, gives postponed. *)
Theorem parse_fixture_status_mapping (raw fd : gmap string pyval) :
  parse_fixture raw = Ok fd →
  ∃ st,
    fd !! "status" = Some (PStr st) ∧
    (short_code raw ∈ PStr <$> ["FT"; "AET"; "PEN"] → st = "finished") ∧
    (short_code raw ∈ PStr <$> ["1H"; "2H"; "HT"; "ET"; "P"; "LIVE"] →
     st = "in_progress") ∧
    (short_code raw ∈ PStr <$> ["TBD"; "NS"] → st = "scheduled") ∧
    (short_code raw ∉ PStr <$> ["FT"; "AET"; "PEN"; "1H"; "2H"; "HT"; "ET"; "P";
                                "LIVE"; "TBD"; "NS"] →
     st = "postponed") ∧
    (path_lookup (PDict raw) ["fixture"; "status"; "short"] = None →
     st = "postponed").
Proof.
  unfold parse_fixture. intros H.
  do 4 inv_bind H. rename v2 into code, Hv2 into Hcode.
  assert (Hst : fd !! "status" = Some (PStr (match_status code))).
  { repeat inv_bind H. apply Ok_inj in H. subst fd. reflexivity. }
  clear H.
  destruct (container_of_get2 _ _ _ _ _ _ Hcode) as [Hc1 Hc2].
  rewrite (get_field2 raw "fixture" "status" "short" (PStr "") Hc1 Hc2) in Hcode.
  apply Ok_inj in Hcode. fold (short_code raw) in Hcode. subst code.
  exists (match_status (short_code raw)). split; [exact Hst|].
  destruct (match_status_spec (short_code raw)) as (H1 & H2 & H3 & H4).
  repeat split; try assumption.
  intros Hnone. apply H4. unfold short_code, raw_field. rewrite Hnone.
  change (default (PStr "") None) with (PStr "").
  rewrite PStr_elem_of. set_solver.
Qed.

Ltac rsimpl :=
  cbn [mbind mret result_bind result_ret default from_option id].

(** C3, as amended.  On a raw record whose nested objects are absent or
    objects and whose [fixture.date] is a string that [fromisoformat]
    accepts once Z is replaced by +00:00, [parse_fixture] returns; the
    result carries the parsed date, its formatted text, and for every
    copied field the value of the raw record or, when it is missing,
    the default (the empty string, N/A or None). *)
Theorem parse_fixture_returns (raw : gmap string pyval) (date : string) (d : datetime) :
  well_shaped raw →
  path_lookup (PDict raw) ["fixture"; "date"] = Some (PStr date) →
  fromisoformat (replace_Z date) = Some d →
  ∃ fd, parse_fixture raw = Ok fd ∧
        fd !! "date" = Some (PDatetime d) ∧
        fd !! "date_formatted" = Some (PStr (strftime d)) ∧
        Forall (λ '(k, path, dflt), fd !! k = Some (raw_field raw path dflt))
               copied_fields.
Proof.
  intros Hshape Hdate Hiso. unfold well_shaped, containers in Hshape.
  repeat (apply Forall_cons in Hshape as [? Hshape]). clear Hshape.
  unfold parse_fixture. cbv zeta.
  rewrite !get_field1 by assumption.
  rewrite !get_field2 by assumption.
  assert (raw_field raw ["fixture"; "date"] (PStr "") = PStr date) as ->
    by (unfold raw_field; by rewrite Hdate).
  rsimpl.
  cbn [py_replace_Z]. rsimpl. unfold py_fromisoformat. rewrite Hiso. rsimpl.
  eexists. split; [reflexivity|].
  split; [reflexivity|]. split; [reflexivity|].
  unfold copied_fields. repeat (apply Forall_cons; split; [reflexivity|]).
  apply Forall_nil_2.
Qed.

End NormalizerTotality.

(** ** Lists *)

Lemma filter_none {A} (P : A → Prop) `{!∀ x, Decision (P x)} (l : list A) :
  (∀ x, x ∈ l → ¬ P x) → filter P l = [].
Proof.
  induction l as [|x l IH]; intros Hl; [done|].
  rewrite filter_cons_False by (apply Hl; left).
  apply IH. intros y Hy. apply Hl. by right.
Qed.

Lemma filter_all {A} (P : A → Prop) `{!∀ x, Decision (P x)} (l : list A) :
  (∀ x, x ∈ l → P x) → filter P l = l.
Proof.
  induction l as [|x l IH]; intros Hl; [done|].
  rewrite filter_cons_True by (apply Hl; left).
  f_equal. apply IH. intros y Hy. apply Hl. by right.
Qed.

(** ** The store: writes *)

Section StoreProps.
Context {DT : DatetimeLib}.

Lemma get_connection_Ok {A} (body : store → result (A * store)) s a s' :
  get_connection body s = (Ok a, s') ↔ body s = Ok (a, s').
Proof.
  unfold get_connection. destruct (body s) as [[a0 s0]|e0]; split; by intros [= -> ->].
Qed.

Lemma get_connection_Err {A} (body : store → result (A * store)) s e s' :
  get_connection body s = (Err e, s') ↔ body s = Err e ∧ s' = s.
Proof.
  unfold get_connection. destruct (body s) as [[a0 s0]|e0]; split;
    try (by intros [= -> ->]); by intros [[= ->] ->].
Qed.

(** A command that raises leaves the store as it was (rollback). *)
Lemma get_connection_rollback {A} (body : store → result (A * store)) s e s' :
  get_connection body s = (Err e, s') → s' = s.
Proof. by intros [_ ->]%get_connection_Err. Qed.

Lemma not_null_Ok v u : not_null v = Ok u → v ≠ SNull.
Proof. by destruct v. Qed.

Lemma sql_insert_or_replace_fixture_Ok s id cols now s' :
  sql_insert_or_replace_fixture s id cols now = Ok s' →
  ∃ rowid,
    (id = SNull ∧ rowid = new_rowid (fixtures s) ∨ id = SInt rowid) ∧
    fixtures s' = filter (λ r, f_fixture_id r ≠ rowid) (fixtures s)
                  ++ [new_fixture_row rowid cols now] ∧
    attended_matches s' = attended_matches s ∧
    attended_seq s' = attended_seq s.
Proof.
  unfold sql_insert_or_replace_fixture. intros H.
  inv_bind H. do 4 inv_bind H. apply Ok_inj in H. subst s'.
  exists v. split; [|done].
  destruct id; simplify_eq; auto.
Qed.

Lemma insert_fixture_inv fd now s r s' :
  insert_fixture fd now s = (r, s') →
  (∃ e, r = Err e ∧ s' = s) ∨
  (r = Ok true ∧ ∃ id cols,
     bind_fixture fd = Ok (id, cols) ∧
     sql_insert_or_replace_fixture s id cols now = Ok s').
Proof.
  unfold insert_fixture. destruct r as [b|e]; intros H.
  - right. apply get_connection_Ok in H.
    inv_bind H. destruct v as [id cols]. inv_bind H.
    apply Ok_inj in H. injection H as <- <-. eauto.
  - left. apply get_connection_Err in H as [_ ->]. eauto.
Qed.

Lemma bind_fixture_id fd id cols :
  bind_fixture fd = Ok (id, cols) →
  bind_param (dict_get fd "fixture_id") = Ok id.
Proof.
  unfold bind_fixture. intros H. inv_bind H. repeat inv_bind H.
  apply Ok_inj in H. by injection H as <- _.
Qed.

(** What a successful upsert leaves in [fixtures]: one row for the key,
    holding the bound columns and the current time in both timestamp
    columns; every row with another key is as before. *)
Lemma insert_fixture_upsert fd now s s' :
  insert_fixture fd now s = (Ok true, s') →
  ∃ rowid id cols,
    bind_fixture fd = Ok (id, cols) ∧
    (id = SNull ∧ rowid = new_rowid (fixtures s) ∨ id = SInt rowid) ∧
    filter (λ r, f_fixture_id r = rowid) (fixtures s')
      = [new_fixture_row rowid cols now] ∧
    filter (λ r, f_fixture_id r ≠ rowid) (fixtures s')
      = filter (λ r, f_fixture_id r ≠ rowid) (fixtures s).
Proof.
  intros [(e & [=] & _)|(_ & id & cols & Hb & Hi)]%insert_fixture_inv.
  apply sql_insert_or_replace_fixture_Ok in Hi as (rowid & Hid & Hf & _ & _).
  exists rowid, id, cols. repeat split; try done; rewrite Hf, filter_app.
  - rewrite list_filter_filter.
    rewrite filter_none by naive_solver.
    simpl. rewrite filter_cons, decide_True by done. done.
  - rewrite list_filter_filter, filter_cons, decide_False by (simpl; auto).
    rewrite filter_nil, app_nil_r. apply list_filter_iff. naive_solver.
Qed.

(** Every key present before an upsert is present after it. *)
Lemma insert_fixture_keeps_ids fd now s r s' id :
  insert_fixture fd now s = (r, s') →
  id ∈ f_fixture_id <$> fixtures s → id ∈ f_fixture_id <$> fixtures s'.
Proof.
  intros [(e & _ & ->)|(_ & i & cols & _ & Hi)]%insert_fixture_inv; [done|].
  apply sql_insert_or_replace_fixture_Ok in Hi as (rowid & _ & -> & _ & _).
  intros (f & -> & Hf)%list_elem_of_fmap. rewrite fmap_app, elem_of_app.
  destruct (decide (f_fixture_id f = rowid)) as [->|Hne].
  - right. simpl. apply list_elem_of_singleton. done.
  - left. apply list_elem_of_fmap. exists f. split; [done|].
    apply list_elem_of_filter. done.
Qed.

End StoreProps.

(** ** The store: joins and queries *)

Lemma elem_of_left_join (fs : list fixture_row) (ams : list attended_row) f o :
  (f, o) ∈ left_join fs ams ↔
  f ∈ fs ∧
  match o with
  | Some a => a ∈ ams ∧ f_fixture_id f = am_fixture_id a
  | None => ∀ a, a ∈ ams → f_fixture_id f ≠ am_fixture_id a
  end.
Proof.
  unfold left_join. rewrite list_elem_of_bind. split.
  - intros (f0 & Hin & Hf0).
    destruct (filter _ ams) as [|a1 ms] eqn:E.
    + apply list_elem_of_singleton in Hin as [= -> ->]. split; [done|].
      intros a Ha Heq. exact (filter_nil_not_elem_of _ _ a E Heq Ha).
    + rewrite <- E in Hin.
      apply list_elem_of_fmap in Hin as (a & [= -> ->] & Ha).
      apply list_elem_of_filter in Ha as [? ?]. done.
  - intros [Hf Ho]. exists f. split; [|done]. destruct o as [a|].
    + destruct Ho as [Ha Heq].
      assert (Hin : a ∈ filter (λ a, f_fixture_id f = am_fixture_id a) ams)
        by by apply list_elem_of_filter.
      destruct (filter _ ams) as [|a1 ms] eqn:E; [by apply elem_of_nil in Hin|].
      apply list_elem_of_fmap. eauto.
    + rewrite filter_none by naive_solver. by apply list_elem_of_singleton.
Qed.

Lemma elem_of_inner_join (ams : list attended_row) (fs : list fixture_row) a f :
  (a, f) ∈ inner_join ams fs ↔
  a ∈ ams ∧ f ∈ fs ∧ am_fixture_id a = f_fixture_id f.
Proof.
  unfold inner_join. rewrite list_elem_of_bind. split.
  - intros (a0 & (f0 & [= -> ->] & Hf)%list_elem_of_fmap & Ha).
    apply list_elem_of_filter in Hf as [? ?]. done.
  - intros (Ha & Hf & Heq). exists a. split; [|done].
    apply list_elem_of_fmap. exists f. split; [done|].
    by apply list_elem_of_filter.
Qed.

Lemma elem_of_get_fixtures team_id status attended_only s v :
  v ∈ get_fixtures team_id status attended_only s ↔
  ∃ j, j ∈ left_join (fixtures s) (attended_matches s) ∧
       sql_true (fixtures_where team_id status attended_only j) = true ∧
       v = select_view j.
Proof.
  unfold get_fixtures. rewrite list_elem_of_fmap.
  setoid_rewrite merge_sort_Permutation.
  setoid_rewrite list_elem_of_filter. naive_solver.
Qed.

(** A fixture that is in the table and carries a mark is returned by
    the attended-only query, with that mark's columns. *)
Lemma get_fixtures_attended_only s f a :
  f ∈ fixtures s → a ∈ attended_matches s →
  f_fixture_id f = am_fixture_id a →
  ∃ v, v ∈ get_fixtures None None true s ∧
       v_fixture v = f ∧ v_attended v = 1 ∧
       v_attended_date v = am_attended_date a ∧ v_notes v = am_notes a.
Proof.
  intros Hf Ha Heq. exists (select_view (f, Some a)).
  split; [|done]. apply elem_of_get_fixtures. exists (f, Some a).
  split; [|done]. by apply elem_of_left_join.
Qed.

Section WriteClaims.
Context {DT : DatetimeLib}.

(** C9. An upsert leaves [attended_matches] as it was; a mark whose
    fixture is the one upserted, or is already in the table, is still
    there afterwards and the attended-only query returns that fixture
    with the mark's date and notes. *)
Theorem insert_fixture_keeps_attendance fd now s r s' :
  insert_fixture fd now s = (r, s') →
  attended_matches s' = attended_matches s ∧
  ∀ a, a ∈ attended_matches s →
    (r = Ok true ∧
     bind_param (dict_get fd "fixture_id") = Ok (SInt (am_fixture_id a))) ∨
    am_fixture_id a ∈ f_fixture_id <$> fixtures s →
    ∃ v, v ∈ get_fixtures None None true s' ∧
         f_fixture_id (v_fixture v) = am_fixture_id a ∧
         v_attended v = 1 ∧
         v_attended_date v = am_attended_date a ∧
         v_notes v = am_notes a.
Proof.
  intros H.
  assert (Ham : attended_matches s' = attended_matches s).
  { destruct (insert_fixture_inv _ _ _ _ _ H)
      as [(e & _ & ->)|(_ & id & cols & _ & Hi)]; [done|].
    by apply sql_insert_or_replace_fixture_Ok in Hi as (? & _ & _ & ? & _). }
  split; [done|]. intros a Ha Hcase.
  assert (Hin : am_fixture_id a ∈ f_fixture_id <$> fixtures s').
  { destruct Hcase as [[-> Hid]|Hold]; [|by eapply insert_fixture_keeps_ids].
    apply insert_fixture_upsert in H as (rowid & id & cols & Hb & Hrow & Hnew & _).
    apply bind_fixture_id in Hb. rewrite Hb in Hid. apply Ok_inj in Hid. subst id.
    destruct Hrow as [[[=] _]|[= <-]].
    apply list_elem_of_fmap. exists (new_fixture_row (am_fixture_id a) cols now).
    split; [done|].
    eapply (λ H, proj2 (proj1 (list_elem_of_filter _ _ _) H)). rewrite Hnew. by left. }
  apply list_elem_of_fmap in Hin as (f & Hid & Hf).
  destruct (get_fixtures_attended_only s' f a) as (v & Hv & <- & ?); try done.
  - by rewrite Ham.
  - by exists v.
Qed.

(** C4. Marking a fixture that has no mark creates one and returns
    true; marking it again makes the INSERT fail on UNIQUE(fixture_id),
    which [mark_attended] turns into the result false, the store being
    left as it was; the table then holds one row for the fixture. *)
Theorem mark_attended_twice f notes1 now1 notes2 now2 s :
  (∀ a, a ∈ attended_matches s → am_fixture_id a ≠ f) →
  ∃ s1, mark_attended f notes1 now1 s = (Ok true, s1) ∧
        sql_insert_attended s1 f notes2 now2 = Err IntegrityError ∧
        mark_attended f notes2 now2 s1 = (Ok false, s1) ∧
        length (filter (λ a, am_fixture_id a = f) (attended_matches s1)) = 1%nat.
Proof.
  intros Hfresh.
  assert (H1 : ∃ s1, sql_insert_attended s f notes1 now1 = Ok s1 ∧
                     ∃ row, am_fixture_id row = f ∧
                            attended_matches s1 = attended_matches s ++ [row]).
  { unfold sql_insert_attended. rewrite bool_decide_eq_false_2.
    - eexists. split; [reflexivity|]. eexists. split; [|reflexivity]. done.
    - intros (a & Ha & Heq)%Exists_exists. by apply (Hfresh a). }
  destruct H1 as (s1 & Hs1 & row & Hrow & Hams).
  assert (H2 : sql_insert_attended s1 f notes2 now2 = Err IntegrityError).
  { unfold sql_insert_attended. rewrite bool_decide_eq_true_2; [done|].
    apply Exists_exists. exists row. split; [|done].
    rewrite Hams. apply elem_of_app. right. by left. }
  exists s1. repeat split.
  - unfold mark_attended, get_connection. by rewrite Hs1.
  - done.
  - unfold mark_attended, get_connection. by rewrite H2.
  - rewrite Hams, filter_app, filter_none by naive_solver.
    by rewrite filter_cons_True by done.
Qed.

End WriteClaims.

(** ** SQL comparisons *)

Lemma string_compare_eq (x y : string) : String.compare x y = Eq ↔ x = y.
Proof. apply OrderedTypeEx.String_as_OT.cmp_eq. Qed.

Lemma string_compare_trans (x y z : string) :
  String.compare x y = Lt → String.compare y z = Lt → String.compare x z = Lt.
Proof.
  change String.compare with OrderedTypeEx.String_as_OT.cmp.
  rewrite !OrderedTypeEx.String_as_OT.cmp_lt.
  apply OrderedTypeEx.String_as_OT.lt_trans.
Qed.

Lemma sql_compare_antisym a b : sql_compare a b = CompOpp (sql_compare b a).
Proof.
  destruct a, b; simpl; try done.
  - apply Z.compare_antisym.
  - apply String.compare_antisym.
Qed.

Lemma sql_compare_eq a b : sql_compare a b = Eq ↔ a = b.
Proof.
  destruct a, b; simpl; try (split; [discriminate|done]); try done.
  - rewrite Z.compare_eq_iff. naive_solver.
  - rewrite string_compare_eq. naive_solver.
Qed.

Lemma sql_compare_lt_trans a b c :
  sql_compare a b = Lt → sql_compare b c = Lt → sql_compare a c = Lt.
Proof.
  destruct a, b, c; simpl; try done.
  - rewrite !Z.compare_lt_iff. lia.
  - apply string_compare_trans.
Qed.

Lemma sql_leb_total a b : sql_leb a b = true ∨ sql_leb b a = true.
Proof.
  unfold sql_leb. rewrite (sql_compare_antisym b a).
  destruct (sql_compare a b); simpl; auto.
Qed.

Lemma sql_leb_trans a b c :
  sql_leb a b = true → sql_leb b c = true → sql_leb a c = true.
Proof.
  unfold sql_leb.
  destruct (sql_compare a b) eqn:Hab; try done;
    destruct (sql_compare b c) eqn:Hbc; try done; intros _ _.
  - apply sql_compare_eq in Hab as ->. by rewrite Hbc.
  - apply sql_compare_eq in Hab as ->. by rewrite Hbc.
  - apply sql_compare_eq in Hbc as <-. by rewrite Hab.
  - by rewrite (sql_compare_lt_trans a b c).
Qed.

#[global] Instance date_desc_total : Total date_desc.
Proof. intros x y. unfold date_desc. destruct (sql_leb_total (f_date y.1) (f_date x.1)); auto. Qed.

#[global] Instance date_desc_trans : Transitive date_desc.
Proof. intros x y z Hxy Hyz. unfold date_desc in *. by eapply sql_leb_trans. Qed.

(** The comparison operators on operands that are not NULL. *)
Lemma sql_cmp_op_not_null test a b :
  a ≠ SNull → b ≠ SNull → sql_cmp_op test a b = Some (test (sql_compare a b)).
Proof. by destruct a, b. Qed.

Lemma sql_eq_true a b : sql_eq a b = Some true ↔ a = b ∧ a ≠ SNull.
Proof.
  unfold sql_eq. destruct (decide (a = SNull)) as [->|Ha]; [naive_solver|].
  destruct (decide (b = SNull)) as [->|Hb]; [destruct a; naive_solver|].
  rewrite sql_cmp_op_not_null by done. split.
  - intros [= H]. destruct (sql_compare a b) eqn:E; try done.
    by apply sql_compare_eq in E.
  - intros [<- _]. by rewrite (proj2 (sql_compare_eq a a)).
Qed.

Lemma sql_true_and a b :
  sql_true (sql_and a b) = true ↔ sql_true a = true ∧ sql_true b = true.
Proof. destruct a as [[]|], b as [[]|]; simpl; naive_solver. Qed.

Lemma sql_true_or a b :
  sql_true (sql_or a b) = true ↔ sql_true a = true ∨ sql_true b = true.
Proof. destruct a as [[]|], b as [[]|]; simpl; naive_solver. Qed.

Lemma sql_true_Some c : sql_true c = true ↔ c = Some true.
Proof. destruct c as [[]|]; simpl; split; congruence. Qed.

Lemma team_cond_true t f : sql_true (team_cond t f) = true ↔ played t f.
Proof.
  unfold team_cond, played. rewrite sql_true_or, !sql_true_Some, !sql_eq_true.
  split.
  - intros [[? _]|[? _]]; auto.
  - intros [H|H]; [left|right]; rewrite H; done.
Qed.

Lemma status_cond_true st f :
  sql_true (status_cond st f) = true ↔ f_status f = SText st.
Proof.
  unfold status_cond. rewrite sql_true_Some, sql_eq_true.
  split; [by intros [? _]|]. intros ->. done.
Qed.

Lemma truthy_int_Some x t : truthy_int x = Some t ↔ x = Some t ∧ t ≠ 0.
Proof.
  destruct x as [z|]; simpl; [|naive_solver].
  destruct (Z.eqb_spec z 0); naive_solver.
Qed.

Lemma truthy_str_Some x st : truthy_str x = Some st ↔ x = Some st ∧ st ≠ "".
Proof.
  destruct x as [z|]; simpl; [|naive_solver].
  destruct (String.eqb_spec z ""); naive_solver.
Qed.

Lemma truthy_int_None x : truthy_int x = None ↔ x = None ∨ x = Some 0.
Proof.
  destruct x as [z|]; simpl; [|split; auto].
  destruct (Z.eqb_spec z 0) as [->|Hz]; split; auto; try done.
  intros [[=]|[= ->]]. done.
Qed.

Lemma truthy_str_None x : truthy_str x = None ↔ x = None ∨ x = Some "".
Proof.
  destruct x as [z|]; simpl; [|split; auto].
  destruct (String.eqb_spec z "") as [->|Hz]; split; auto; try done.
  intros [[=]|[= ->]]. done.
Qed.

(** The conjunct a truthy team id adds to a WHERE clause. *)
Lemma team_filter_true (team_id : option Z) (q : option bool) f :
  sql_true match truthy_int team_id with
           | Some t => sql_and q (team_cond t f)
           | None => q
           end = true ↔
  sql_true q = true ∧ (∀ t, team_id = Some t → t ≠ 0 → played t f).
Proof.
  destruct (truthy_int team_id) as [t|] eqn:E.
  - apply truthy_int_Some in E as [-> Ht].
    rewrite sql_true_and, team_cond_true. split.
    + intros [Hq Hp]. split; [done|]. by intros ? [= <-] _.
    + intros [Hq Hp]. split; [done|]. by apply Hp.
  - apply truthy_int_None in E. split; [|by intros [? _]].
    intros Hq. split; [done|]. intros t -> Ht. by destruct E as [[=]|[= ->]].
Qed.

Lemma status_filter_true (status : option string) (q : option bool) f :
  sql_true match truthy_str status with
           | Some st => sql_and q (status_cond st f)
           | None => q
           end = true ↔
  sql_true q = true ∧ (∀ st, status = Some st → st ≠ "" → f_status f = SText st).
Proof.
  destruct (truthy_str status) as [st|] eqn:E.
  - apply truthy_str_Some in E as [-> Ht].
    rewrite sql_true_and, status_cond_true. split.
    + intros [Hq Hp]. split; [done|]. by intros ? [= <-] _.
    + intros [Hq Hp]. split; [done|]. by apply Hp.
  - apply truthy_str_None in E. split; [|by intros [? _]].
    intros Hq. split; [done|]. intros st -> Ht. by destruct E as [[=]|[= ->]].
Qed.

(** The WHERE clause of [get_fixtures] is the conjunction of the
    filters whose argument is truthy. *)
Lemma fixtures_where_true team_id status attended_only f o :
  sql_true (fixtures_where team_id status attended_only (f, o)) = true ↔
  (∀ t, team_id = Some t → t ≠ 0 → played t f) ∧
  (∀ st, status = Some st → st ≠ "" → f_status f = SText st) ∧
  (attended_only = true → is_Some o).
Proof.
  unfold fixtures_where. cbn [fst snd].
  assert (Ho : sql_true (Some (sql_is_not_null (am_fixture_id_col o))) = true
               ↔ is_Some o).
  { destruct o; simpl; split; done. }
  destruct attended_only.
  - rewrite sql_true_and, status_filter_true, team_filter_true, Ho.
    split.
    + intros [[[_ Ht] Hs] Ha]. auto.
    + intros (Ht & Hs & Ha). auto.
  - rewrite status_filter_true, team_filter_true. split.
    + intros [[_ Ht] Hs]. repeat split; auto. done.
    + intros (Ht & Hs & _). auto.
Qed.


(** ** get_fixtures *)

Lemma get_fixtures_sorted team_id status attended_only s :
  StronglySorted view_date_desc (get_fixtures team_id status attended_only s).
Proof.
  unfold get_fixtures.
  apply (StronglySorted_fmap select_view date_desc view_date_desc).
  - by intros x y.
  - apply StronglySorted_merge_sort; apply _.
Qed.

(** The columns [select_view] gives a joined row. *)
Lemma select_view_join fs ams f o :
  (f, o) ∈ left_join fs ams →
  let v := select_view (f, o) in
  v_fixture v = f ∧ f ∈ fs ∧
  match o with
  | Some a =>
      a ∈ ams ∧ am_fixture_id a = f_fixture_id f ∧ v_attended v = 1 ∧
      v_attended_date v = am_attended_date a ∧ v_notes v = am_notes a
  | None =>
      (∀ a, a ∈ ams → am_fixture_id a ≠ f_fixture_id f) ∧ v_attended v = 0 ∧
      v_attended_date v = SNull ∧ v_notes v = SNull
  end.
Proof.
  intros [Hf Ho]%elem_of_left_join. simpl. repeat split; try done.
  destruct o as [a|].
  - destruct Ho. done.
  - repeat split; try done. intros a Ha Heq. by apply (Ho a).
Qed.

(** Every fixture of the table that passes the filters in force is
    among the rows. *)
Lemma get_fixtures_complete team_id status attended_only s f :
  f ∈ fixtures s →
  (∀ t, team_id = Some t → t ≠ 0 → played t f) →
  (∀ st, status = Some st → st ≠ "" → f_status f = SText st) →
  (attended_only = true → marked s f) →
  ∃ v, v ∈ get_fixtures team_id status attended_only s ∧ v_fixture v = f.
Proof.
  intros Hf Ht Hs Ha.
  assert (Hex : ∃ o, (f, o) ∈ left_join (fixtures s) (attended_matches s) ∧
                     (attended_only = true → is_Some o)).
  { destruct (decide (Exists (λ a, f_fixture_id f = am_fixture_id a)
                             (attended_matches s))) as [He|He].
    - apply Exists_exists in He as (a & Hin & Heq). exists (Some a).
      split; [by apply elem_of_left_join|]. by eexists.
    - exists None. split.
      + apply elem_of_left_join. split; [done|]. intros a Hin Heq.
        apply He, Exists_exists. by exists a.
      + intros Hao. destruct (Ha Hao) as (a & Hin & Heq).
        exfalso. apply He, Exists_exists. by exists a. }
  destruct Hex as (o & Hj & Ho).
  exists (select_view (f, o)). split; [|done].
  apply elem_of_get_fixtures. exists (f, o). split; [done|]. split; [|done].
  by apply fixtures_where_true.
Qed.

(** C7, as amended.  [get_fixtures] returns its rows in descending
    order of date.  Every row is a fixture of the table joined with its
    mark: the mark's date and notes and the flag 1 when one exists, NULL
    and the flag 0 when none does.  A team id other than 0 keeps only
    fixtures the team played; a status other than the empty string keeps
    only fixtures of that status; [attended_only] keeps only marked
    fixtures.  Nothing else is left out: every fixture of the table that
    passes the filters in force is returned. *)
Theorem get_fixtures_filters team_id status attended_only s :
  let rows := get_fixtures team_id status attended_only s in
  StronglySorted view_date_desc rows ∧
  (∀ v, v ∈ rows →
     v_fixture v ∈ fixtures s ∧
     ((∃ a, a ∈ attended_matches s ∧
            am_fixture_id a = f_fixture_id (v_fixture v) ∧
            v_attended v = 1 ∧
            v_attended_date v = am_attended_date a ∧
            v_notes v = am_notes a) ∨
      ((∀ a, a ∈ attended_matches s →
             am_fixture_id a ≠ f_fixture_id (v_fixture v)) ∧
       v_attended v = 0 ∧ v_attended_date v = SNull ∧ v_notes v = SNull)) ∧
     (∀ t, team_id = Some t → t ≠ 0 → played t (v_fixture v)) ∧
     (∀ st, status = Some st → st ≠ "" → f_status (v_fixture v) = SText st) ∧
     (attended_only = true → v_attended v = 1 ∧ marked s (v_fixture v))) ∧
  (∀ f, f ∈ fixtures s →
     (∀ t, team_id = Some t → t ≠ 0 → played t f) →
     (∀ st, status = Some st → st ≠ "" → f_status f = SText st) →
     (attended_only = true → marked s f) →
     ∃ v, v ∈ rows ∧ v_fixture v = f).
Proof.
  intros rows. split; [apply get_fixtures_sorted|]. split.
  - intros v ([f o] & Hj & Hw & ->)%elem_of_get_fixtures.
    apply fixtures_where_true in Hw as (Ht & Hs & Ha).
    destruct (select_view_join _ _ _ _ Hj) as (Hv & Hf & Ho).
    rewrite Hv. split; [done|]. split; [|split; [done|split; [done|]]].
    + destruct o as [a|].
      * left. exists a. exact Ho.
      * right. exact Ho.
    + intros Hao. destruct (Ha Hao) as [a ->].
      destruct Ho as (? & ? & ? & _). split; [done|]. by exists a.
  - intros f. apply get_fixtures_complete.
Qed.

(** ** get_statistics *)

(** C10. A team id of 0 is falsy: [get_fixtures] and [get_statistics]
    give what they give without a team id, so no fixture is left out for
    the team it names and wins, draws and losses are absent. *)
Theorem team_id_zero_as_omitted status attended_only s :
  get_fixtures (Some 0) status attended_only s
    = get_fixtures None status attended_only s ∧
  get_statistics (Some 0) s = get_statistics None s ∧
  wins (get_statistics (Some 0) s) = None ∧
  draws (get_statistics (Some 0) s) = None ∧
  losses (get_statistics (Some 0) s) = None ∧
  (∀ f, f ∈ fixtures s →
        ∃ v, v ∈ get_fixtures (Some 0) None false s ∧ v_fixture v = f).
Proof.
  repeat split; try reflexivity.
  intros f Hf. apply get_fixtures_complete; try done. by intros t [= <-].
Qed.

(** *** The join under the PRIMARY KEY of [fixtures] *)

Lemma inner_join_cons a ams fs :
  inner_join (a :: ams) fs
  = ((λ f, (a, f)) <$> filter (λ f, am_fixture_id a = f_fixture_id f) fs)
    ++ inner_join ams fs.
Proof. reflexivity. Qed.

(** With unique keys the join finds one row for a key in the table. *)
Lemma filter_key (fs : list fixture_row) id f :
  NoDup (f_fixture_id <$> fs) → f ∈ fs → f_fixture_id f = id →
  filter (λ f', id = f_fixture_id f') fs = [f].
Proof.
  induction fs as [|x fs IH]; intros Hnd Hin Hid; [by apply elem_of_nil in Hin|].
  rewrite fmap_cons in Hnd. apply NoDup_cons in Hnd as [Hx Hnd].
  apply elem_of_cons in Hin as [->|Hin].
  - rewrite filter_cons_True by done. f_equal.
    apply filter_none. intros y Hy Heq. apply Hx.
    apply list_elem_of_fmap. exists y. split; [congruence|done].
  - rewrite filter_cons_False; [by apply IH|].
    intros Heq. apply Hx. apply list_elem_of_fmap. exists f.
    split; [congruence|done].
Qed.

(** The rows of the join that satisfy a condition on the fixture are as
    many as the marks whose fixture is in the table and satisfies it. *)
Lemma length_filter_inner_join (Q : fixture_row → Prop) `{!∀ f, Decision (Q f)}
    (ams : list attended_row) (fs : list fixture_row) :
  NoDup (f_fixture_id <$> fs) →
  length (filter (λ j : attended_row * fixture_row, Q j.2) (inner_join ams fs))
  = length (filter (λ a, Exists (λ f, f_fixture_id f = am_fixture_id a ∧ Q f) fs) ams).
Proof.
  intros Hnd. induction ams as [|a ams IH]; [done|].
  rewrite inner_join_cons, filter_app, length_app, IH. clear IH.
  rewrite filter_cons.
  destruct (decide (Exists (λ f, am_fixture_id a = f_fixture_id f) fs)) as [He|He].
  - apply Exists_exists in He as (f & Hf & Hid).
    rewrite (filter_key fs (am_fixture_id a) f) by done.
    rewrite fmap_cons, fmap_nil, filter_cons, filter_nil. cbn [snd].
    destruct (decide (Q f)) as [HQ|HQ].
    + rewrite decide_True; [done|]. apply Exists_exists. by exists f.
    + rewrite decide_False; [done|].
      intros (f' & Hf' & Hid' & HQ')%Exists_exists.
      assert (Hin : f' ∈ filter (λ f0, am_fixture_id a = f_fixture_id f0) fs)
        by by apply list_elem_of_filter.
      rewrite (filter_key fs (am_fixture_id a) f) in Hin by done.
      apply list_elem_of_singleton in Hin as ->. done.
  - rewrite (filter_none (λ f, am_fixture_id a = f_fixture_id f) fs).
    + rewrite decide_False; [done|].
      intros (f & Hf & Hid & _)%Exists_exists.
      apply He, Exists_exists. by exists f.
    + intros f Hf Hid. apply He, Exists_exists. by exists f.
Qed.

(** C5, as amended.  In a store that satisfies the schema's
    constraints, [total_attended] is the number of marks whose fixture
    has a row in [fixtures]; with a team id other than 0, the number of
    those whose fixture the team played. *)
Theorem total_attended_counts_joined s :
  store_wf s →
  total_attended (get_statistics None s)
    = Z.of_nat (length (filter
        (λ a, Exists (λ f, f_fixture_id f = am_fixture_id a) (fixtures s))
        (attended_matches s))) ∧
  ∀ t, t ≠ 0 →
    total_attended (get_statistics (Some t) s)
    = Z.of_nat (length (filter
        (λ a, Exists (λ f, f_fixture_id f = am_fixture_id a ∧ played t f) (fixtures s))
        (attended_matches s))).
Proof.
  intros (Hnd & _). split.
  - unfold get_statistics, attended_rows. cbn [total_attended truthy_int].
    rewrite length_fmap. f_equal.
    rewrite <- (filter_all (λ j : attended_row * fixture_row, True) (inner_join _ _))
      by done.
    etrans; [exact (length_filter_inner_join (λ _, True) _ _ Hnd)|].
    f_equal. apply list_filter_iff. intros a.
    rewrite !Exists_exists. split.
    + intros (f & ? & ? & _). by exists f.
    + intros (f & ? & ?). by exists f.
  - intros t Ht. unfold get_statistics, attended_rows. cbn [total_attended].
    rewrite (proj2 (truthy_int_Some (Some t) t)) by done.
    rewrite length_fmap. f_equal.
    rewrite <- (length_filter_inner_join (played t)) by done.
    f_equal. apply list_filter_iff. intros j. apply team_cond_true.
Qed.

(** *** Wins, draws, losses *)




Lemma or_zero_sum (l : list Z) : or_zero (sql_sum l) = foldr Z.add 0 l.
Proof.
  destruct l as [|x l]; [done|]. unfold sql_sum, or_zero.
  destruct (Z.eqb_spec (foldr Z.add 0 (x :: l)) 0) as [->|]; done.
Qed.

Lemma elem_of_finished_rows t s f :
  f ∈ finished_rows t s ↔
  f ∈ fixtures s ∧ marked s f ∧ f_status f = SText "finished" ∧ played t f.
Proof.
  unfold finished_rows, marked. rewrite list_elem_of_fmap. split.
  - intros ([a f'] & -> & [Hw Hj]%list_elem_of_filter). cbn [snd] in *.
    apply elem_of_inner_join in Hj as (Ha & Hf & Hid).
    apply sql_true_and in Hw as [Hp%team_cond_true Hs%status_cond_true].
    split; [done|]. split; [by exists a|]. done.
  - intros (Hf & (a & Ha & Hid) & Hs & Hp). exists (a, f). split; [done|].
    apply list_elem_of_filter. split; [|by apply elem_of_inner_join].
    cbn [snd]. apply sql_true_and. split; [by apply team_cond_true|].
    by apply status_cond_true.
Qed.




(** ** The schema's constraints are kept *)

Lemma empty_store_wf : store_wf empty_store.
Proof. repeat split; constructor. Qed.

Lemma NoDup_fmap_filter {A B} (g : A → B) (P : A → Prop) `{!∀ x, Decision (P x)}
    (l : list A) :
  NoDup (g <$> l) → NoDup (g <$> filter P l).
Proof.
  intros Hnd. eapply sublist_NoDup; [exact Hnd|].
  apply fmap_sublist, sublist_filter.
Qed.

Section Invariant.
Context {DT : DatetimeLib}.

Lemma insert_fixture_wf fd now s r s' :
  store_wf s → insert_fixture fd now s = (r, s') → store_wf s'.
Proof.
  intros Hwf [(e & _ & ->)|(_ & id & cols & _ & Hi)]%insert_fixture_inv; [done|].
  apply sql_insert_or_replace_fixture_Ok in Hi as (rowid & _ & Hf & Ha & Hs).
  destruct Hwf as (Hnd & Hwf). unfold store_wf. rewrite Hf, Ha, Hs.
  split; [|done]. rewrite fmap_app. apply NoDup_app. repeat split.
  - by apply NoDup_fmap_filter.
  - intros x (f & -> & [Hne _]%list_elem_of_filter)%list_elem_of_fmap.
    intros Hx%list_elem_of_singleton. done.
  - apply NoDup_singleton.
Qed.

End Invariant.

Lemma mark_attended_wf fixture_id notes now s r s' :
  store_wf s → mark_attended fixture_id notes now s = (r, s') → store_wf s'.
Proof.
  intros Hwf. unfold mark_attended, get_connection, sql_insert_attended.
  case_bool_decide as He; [by intros [= _ <-]|]. intros [= _ <-].
  destruct Hwf as (Hf & Hu & Hid & Hseq). unfold store_wf. cbn.
  rewrite !fmap_app. split; [done|]. repeat split.
  - apply NoDup_app. split; [done|]. split; [|apply NoDup_singleton].
    intros x (a & -> & Ha)%list_elem_of_fmap Hx%list_elem_of_singleton.
    apply He, Exists_exists. by exists a.
  - apply NoDup_app. split; [done|]. split; [|apply NoDup_singleton].
    intros x (a & -> & Ha)%list_elem_of_fmap Hx%list_elem_of_singleton.
    rewrite Forall_forall in Hseq. specialize (Hseq a Ha). simpl in Hx. lia.
  - apply Forall_app. split.
    + eapply Forall_impl; [exact Hseq|]. intros a Ha. simpl in Ha. lia.
    + apply Forall_singleton. done.
Qed.

Lemma unmark_attended_wf fixture_id s r s' :
  store_wf s → unmark_attended fixture_id s = (r, s') → store_wf s'.
Proof.
  intros (Hf & Hu & Hid & Hseq). unfold unmark_attended, get_connection.
  intros [= _ <-]. unfold store_wf. cbn. split; [done|]. repeat split.
  - by apply NoDup_fmap_filter.
  - by apply NoDup_fmap_filter.
  - rewrite Forall_forall in *. intros a [_ Ha]%list_elem_of_filter. auto.
Qed.

(** Every store the program can reach satisfies the constraints. *)
Lemma reachable_wf `{DT : DatetimeLib} (s : store) : reachable s → store_wf s.
Proof.
  induction 1 as [|fd now s _ IH|f notes now s _ IH|f s _ IH].
  - apply empty_store_wf.
  - eapply insert_fixture_wf; [exact IH|apply surjective_pairing].
  - eapply mark_attended_wf; [exact IH|apply surjective_pairing].
  - eapply unmark_attended_wf; [exact IH|apply surjective_pairing].
Qed.

(** ** The sync orchestrator *)

Section SyncProps.
Context {DT : DatetimeLib}.
Variable get_team_fixtures : Z → Z → Z → result (list (gmap string pyval)).
Variable clock : nat → string.

(** Every upsert of the loop either raises or reports true, so a loop
    that ends normally has counted every record. *)
Lemma sync_loop_count k fixtures n s m s' :
  sync_loop clock k fixtures n s = (Ok m, s') →
  m = n + Z.of_nat (length fixtures).
Proof.
  revert k n s. induction fixtures as [|raw rest IH]; intros k n s; simpl.
  - intros [= <- _]. lia.
  - destruct (parse_fixture raw) as [fd|e]; [|done].
    destruct (insert_fixture fd (clock k) s) as [[b|e] s1] eqn:Hi; [|done].
    apply insert_fixture_inv in Hi as [(e & [=] & _)|([= ->] & _)].
    intros ->%IH. lia.
Qed.

(** C6. With a competition key that is not in [COMPETITIONS] the body
    of [sync_team_fixtures] raises before the provider is asked; the
    result is (0, 0) and the store is the one it was given. *)
Theorem sync_unknown_competition team_id competition season s :
  COMPETITIONS !! competition = None →
  sync_body get_team_fixtures clock team_id competition season s = (Err ValueError, s) ∧
  sync_team_fixtures get_team_fixtures clock team_id competition season s = ((0, 0), s).
Proof.
  intros H. unfold sync_team_fixtures, sync_body. by rewrite H.
Qed.

End SyncProps.

(** ** The properties on sample data *)

Section OnSamples.
#[local] Existing Instance iso_lib.

(** C1. The first sync stores fixture 100 with [created_at] at the
    time of that sync.  Syncing it again later returns true and leaves
    one row for the fixture, with the new status and score and
    [updated_at] at the later time; its [created_at] is the later time
    too, not the one the row had. *)
Theorem insert_fixture_resets_created_at :
  let s' := after (insert_fixture fixture_finished second_sync_time) store_first_sync in
  (λ f, (f_fixture_id f, f_status f, f_home_goals f, f_created_at f, f_updated_at f))
    <$> fixtures store_first_sync
  = [(100, SText "scheduled", SNull, SText first_sync_time, SText first_sync_time)] ∧
  (insert_fixture fixture_finished second_sync_time store_first_sync).1 = Ok true ∧
  (λ f, (f_fixture_id f, f_status f, f_home_goals f, f_created_at f, f_updated_at f))
    <$> fixtures s'
  = [(100, SText "finished", SInt 2, SText second_sync_time, SText second_sync_time)].
Proof. vm_compute. repeat split. Qed.

(** The normalizer raises on a record without a date. *)
Lemma parse_fixture_undated_raises :
  parse_fixture raw_undated = Err ValueError ∧
  ¬ returns (parse_fixture raw_undated).
Proof.
  assert (H : parse_fixture raw_undated = Err ValueError) by reflexivity.
  split; [exact H|]. intros [fd Hfd].
  pose proof (eq_trans (eq_sym H) Hfd) as Hc. discriminate Hc.
Qed.

(** A mark whose fixture has no row is not in [total_attended]. *)
Lemma total_attended_skips_orphan_mark :
  length (attended_matches store_orphan_mark) = 1%nat ∧
  total_attended (get_statistics None store_orphan_mark) = 0.
Proof. vm_compute. repeat split. Qed.


(** With the team id 0 a fixture of teams 1 and 2 is returned. *)
Lemma get_fixtures_team_zero_unfiltered :
  (λ v, (f_home_team_id (v_fixture v), f_away_team_id (v_fixture v)))
    <$> get_fixtures (Some 0) None false store_first_sync
  = [(SInt 1, SInt 2)] ∧
  ¬ (∀ v, v ∈ get_fixtures (Some 0) None false store_first_sync →
          played 0 (v_fixture v)).
Proof.
  assert (H : ∃ v, get_fixtures (Some 0) None false store_first_sync = [v] ∧
                   f_home_team_id (v_fixture v) = SInt 1 ∧
                   f_away_team_id (v_fixture v) = SInt 2).
  { eexists. split; [vm_compute; reflexivity|]. vm_compute. split; reflexivity. }
  destruct H as (v & Hv & Hh & Ha). rewrite Hv. split.
  - cbn [fmap list_fmap]. by rewrite Hh, Ha.
  - intros Hall. destruct (Hall v) as [H|H]; [by left| |]; congruence.
Qed.

End OnSamples.

(** ** The theorems at the sample data *)

Section Witnesses.
#[local] Existing Instance iso_lib.

Lemma parse_fixture_status_mapping_witness :
  short_code (raw_sample 100 kickoff "FT" 1 2 (PInt 2) (PInt 1)) = PStr "FT" ∧
  parse_fixture (raw_sample 100 kickoff "FT" 1 2 (PInt 2) (PInt 1)) = Ok fixture_finished ∧
  fixture_finished !! "status" = Some (PStr "finished").
Proof.
  assert (Hcode : short_code (raw_sample 100 kickoff "FT" 1 2 (PInt 2) (PInt 1))
                  = PStr "FT") by reflexivity.
  assert (Hparse : parse_fixture (raw_sample 100 kickoff "FT" 1 2 (PInt 2) (PInt 1))
                   = Ok fixture_finished) by reflexivity.
  split; [exact Hcode|]. split; [exact Hparse|].
  destruct (parse_fixture_status_mapping
              (raw_sample 100 kickoff "FT" 1 2 (PInt 2) (PInt 1)) fixture_finished Hparse)
    as (st & Hst & Hfinished & _).
  assert (Hfin : st = "finished").
  { apply Hfinished. rewrite Hcode. cbn [fmap list_fmap]. apply list_elem_of_here. }
  subst st. exact Hst.
Defined.

Lemma parse_fixture_returns_witness :
  well_shaped (raw_sample 100 kickoff "FT" 1 2 (PInt 2) (PInt 1)) ∧
  path_lookup (PDict (raw_sample 100 kickoff "FT" 1 2 (PInt 2) (PInt 1)))
              ["fixture"; "date"] = Some (PStr kickoff) ∧
  fromisoformat (replace_Z kickoff) = Some kickoff_datetime ∧
  ∃ fd, parse_fixture (raw_sample 100 kickoff "FT" 1 2 (PInt 2) (PInt 1)) = Ok fd ∧
        fd !! "date" = Some (PDatetime kickoff_datetime) ∧
        fd !! "date_formatted" = Some (PStr (strftime kickoff_datetime)) ∧
        Forall (λ '(k, path, dflt),
                  fd !! k = Some (raw_field
                                    (raw_sample 100 kickoff "FT" 1 2 (PInt 2) (PInt 1))
                                    path dflt))
               copied_fields.
Proof.
  assert (Hshape : well_shaped (raw_sample 100 kickoff "FT" 1 2 (PInt 2) (PInt 1))).
  { unfold well_shaped, containers.
    repeat (apply Forall_cons; split; [vm_compute; exact I|]). apply Forall_nil_2. }
  split; [exact Hshape|]. split; [reflexivity|]. split; [reflexivity|].
  apply (parse_fixture_returns
           (raw_sample 100 kickoff "FT" 1 2 (PInt 2) (PInt 1)) kickoff kickoff_datetime).
  - exact Hshape.
  - reflexivity.
  - reflexivity.
Defined.

Lemma insert_fixture_keeps_attendance_witness :
  let r := (insert_fixture fixture_finished second_sync_time store_attended).1 in
  let s' := after (insert_fixture fixture_finished second_sync_time) store_attended in
  insert_fixture fixture_finished second_sync_time store_attended = (r, s') ∧
  attended_matches s' = attended_matches store_attended ∧
  ∀ a, a ∈ attended_matches store_attended →
    (r = Ok true ∧
     bind_param (dict_get fixture_finished "fixture_id") = Ok (SInt (am_fixture_id a))) ∨
    am_fixture_id a ∈ f_fixture_id <$> fixtures store_attended →
    ∃ v, v ∈ get_fixtures None None true s' ∧
         f_fixture_id (v_fixture v) = am_fixture_id a ∧
         v_attended v = 1 ∧
         v_attended_date v = am_attended_date a ∧
         v_notes v = am_notes a.
Proof.
  intros r s'. split; [reflexivity|].
  apply (insert_fixture_keeps_attendance
           fixture_finished second_sync_time store_attended r s').
  reflexivity.
Defined.

Lemma mark_attended_twice_witness :
  (∀ a, a ∈ attended_matches store_first_sync → am_fixture_id a ≠ 100) ∧
  ∃ s1, mark_attended 100 (Some "great match") first_sync_time store_first_sync
          = (Ok true, s1) ∧
        sql_insert_attended s1 100 None second_sync_time = Err IntegrityError ∧
        mark_attended 100 None second_sync_time s1 = (Ok false, s1) ∧
        length (filter (λ a, am_fixture_id a = 100) (attended_matches s1)) = 1%nat.
Proof.
  assert (H : ∀ a, a ∈ attended_matches store_first_sync → am_fixture_id a ≠ 100).
  { intros a Ha. vm_compute in Ha. by apply elem_of_nil in Ha. }
  split; [exact H|].
  apply (mark_attended_twice 100 (Some "great match") first_sync_time
           None second_sync_time store_first_sync H).
Defined.

Lemma store_attended_wf : store_wf store_attended.
Proof.
  eapply mark_attended_wf; [|apply surjective_pairing].
  eapply insert_fixture_wf; [|apply surjective_pairing].
  eapply insert_fixture_wf; [|apply surjective_pairing].
  apply empty_store_wf.
Defined.

Lemma total_attended_counts_joined_witness :
  store_wf store_attended ∧
  total_attended (get_statistics None store_attended)
    = Z.of_nat (length (filter
        (λ a, Exists (λ f, f_fixture_id f = am_fixture_id a) (fixtures store_attended))
        (attended_matches store_attended))) ∧
  ∀ t, t ≠ 0 →
    total_attended (get_statistics (Some t) store_attended)
    = Z.of_nat (length (filter
        (λ a, Exists (λ f, f_fixture_id f = am_fixture_id a ∧ played t f)
                     (fixtures store_attended))
        (attended_matches store_attended))).
Proof.
  split; [exact store_attended_wf|].
  apply (total_attended_counts_joined store_attended store_attended_wf).
Defined.


Lemma sync_unknown_competition_witness :
  COMPETITIONS !! "premier_league" = None ∧
  sync_team_fixtures (λ _ _ _, Ok [raw_sample 100 kickoff "FT" 1 2 (PInt 2) (PInt 1)])
                     (λ _, first_sync_time) 1 "premier_league" 2024 store_attended
  = ((0, 0), store_attended).
Proof.
  split; [reflexivity|].
  apply (sync_unknown_competition
           (λ _ _ _, Ok [raw_sample 100 kickoff "FT" 1 2 (PInt 2) (PInt 1)])
           (λ _, first_sync_time) 1 "premier_league" 2024 store_attended).
  reflexivity.
Defined.

End Witnesses.

(** * Further properties *)

(** ** The normalizer: when it returns and what it returns *)

(** Reduces the binds of the result monad on known results. *)
Ltac result_simpl :=
  cbn [mbind mret result_bind result_ret default from_option id].

Section NormalizerMore.
Context {DT : DatetimeLib}.

(** A record on which [parse_fixture] returns has a date that
    [fromisoformat] accepts. *)
Lemma parse_fixture_date (raw fd : gmap string pyval) :
  parse_fixture raw = Ok fd →
  ∃ date d, path_lookup (PDict raw) ["fixture"; "date"] = Some (PStr date) ∧
            fromisoformat (replace_Z date) = Some d ∧
            fd !! "date" = Some (PDatetime d).
Proof.
  unfold parse_fixture. intros H. do 3 inv_bind H.
  assert (Hfd : fd !! "date" = Some (PDatetime v1)).
  { repeat inv_bind H. apply Ok_inj in H. subst fd. reflexivity. }
  clear H.
  pose proof (container_of_get _ _ _ _ _ Hv) as Hc.
  destruct (container_get raw "fixture" Hc) as (df & Hdf & Hp).
  rewrite Hdf, py_get_path, <- (Hp "date" []) in Hv. apply Ok_inj in Hv. subst v.
  unfold py_fromisoformat in Hv1.
  destruct (fromisoformat v0) as [d|] eqn:Hiso; [|discriminate].
  apply Ok_inj in Hv1. subst v1.
  destruct (path_lookup (PDict raw) ["fixture"; "date"]) as [x|] eqn:Hx;
    cbn [default from_option id] in Hv0.
  - destruct x; try discriminate. cbn [py_replace_Z] in Hv0.
    apply Ok_inj in Hv0. subst v0. eauto.
  - cbn [py_replace_Z replace_Z] in Hv0. apply Ok_inj in Hv0. subst v0.
    by rewrite fromisoformat_empty in Hiso.
Qed.

Lemma parse_fixture_shape (raw fd : gmap string pyval) :
  parse_fixture raw = Ok fd → well_shaped raw.
Proof.
  unfold parse_fixture. intros H. repeat inv_bind H. clear H.
  unfold well_shaped, containers.
  repeat match goal with
  | H : py_get2 _ _ _ _ = Ok _ |- _ => apply container_of_get2 in H as [? ?]
  | H : py_get _ _ _ = Ok _ |- _ => apply container_of_get in H
  end.
  repeat (apply Forall_cons; split; [assumption|]). apply Forall_nil_2.
Qed.

(** The returning direction, for a record of the right shape. *)
Lemma parse_fixture_shaped (raw : gmap string pyval) (date : string) (d : datetime) :
  well_shaped raw →
  path_lookup (PDict raw) ["fixture"; "date"] = Some (PStr date) →
  fromisoformat (replace_Z date) = Some d →
  returns (parse_fixture raw).
Proof.
  intros Hshape Hdate Hiso. unfold well_shaped, containers in Hshape.
  repeat (apply Forall_cons in Hshape as [? Hshape]). clear Hshape.
  unfold parse_fixture. cbv zeta.
  rewrite !get_field1 by assumption.
  rewrite !get_field2 by assumption.
  assert (raw_field raw ["fixture"; "date"] (PStr "") = PStr date) as ->
    by (unfold raw_field; by rewrite Hdate).
  result_simpl. cbn [py_replace_Z]. result_simpl.
  unfold py_fromisoformat. rewrite Hiso. result_simpl.
  eexists. reflexivity.
Qed.

(** X1. [parse_fixture] returns on exactly the records whose nested
    objects are absent or objects and whose [fixture.date] is a string
    that [fromisoformat] accepts once Z is replaced by +00:00; on every
    other record it raises. *)
Theorem parse_fixture_returns_iff (raw : gmap string pyval) :
  returns (parse_fixture raw) ↔
  well_shaped raw ∧
  ∃ date d, path_lookup (PDict raw) ["fixture"; "date"] = Some (PStr date) ∧
            fromisoformat (replace_Z date) = Some d.
Proof.
  split.
  - intros [fd Hfd]. split; [by eapply parse_fixture_shape|].
    destruct (parse_fixture_date raw fd Hfd) as (date & d & ? & ? & _). eauto.
  - intros (Hshape & date & d & Hdate & Hiso). by eapply parse_fixture_shaped.
Qed.

(** X2. A normalized record has the twenty-two keys of the internal
    format, a datetime under [date] and one of the four canonical
    statuses under [status]. *)
Theorem parse_fixture_canonical (raw fd : gmap string pyval) :
  parse_fixture raw = Ok fd →
  dom fd = list_to_set normalized_keys ∧
  (∃ d, fd !! "date" = Some (PDatetime d)) ∧
  (∃ st, fd !! "status" = Some (PStr st) ∧ st ∈ canonical_statuses).
Proof.
  intros H. split; [|split].
  - unfold parse_fixture in H. repeat inv_bind H. apply Ok_inj in H. subst fd.
    rewrite dom_list_to_map_L. reflexivity.
  - destruct (parse_fixture_date raw fd H) as (_ & d & _ & _ & ?). eauto.
  - unfold parse_fixture in H. do 4 inv_bind H.
    exists (match_status v2). split.
    + repeat inv_bind H. apply Ok_inj in H. subst fd. reflexivity.
    + clear. unfold match_status, canonical_statuses.
      repeat match goal with |- context [if ?b then _ else _] => destruct b end.
      all: repeat first [apply list_elem_of_here | apply list_elem_of_further].
Qed.

End NormalizerMore.

(** ** The store: what an upsert refuses, replaces and adds *)

Section InsertMore.
Context {DT : DatetimeLib}.

Lemma bind_param_None v x : bind_param v = Ok x → v = PNone → x = SNull.
Proof. intros H ->. by apply Ok_inj in H. Qed.

(** The columns bound for the four NOT NULL keys. *)
Lemma bind_fixture_required fd id cols :
  bind_fixture fd = Ok (id, cols) →
  bind_param (dict_get fd "date") = Ok (c_date cols) ∧
  bind_param (dict_get fd "status") = Ok (c_status cols) ∧
  bind_param (dict_get fd "home_team_name") = Ok (c_home_team_name cols) ∧
  bind_param (dict_get fd "away_team_name") = Ok (c_away_team_name cols).
Proof.
  unfold bind_fixture. intros H. repeat inv_bind H.
  apply Ok_inj in H. injection H as <- <-. done.
Qed.

Lemma sql_insert_or_replace_fixture_Err s id cols now :
  (∃ t, id = SText t) ∨ c_date cols = SNull ∨ c_status cols = SNull ∨
  c_home_team_name cols = SNull ∨ c_away_team_name cols = SNull →
  sql_insert_or_replace_fixture s id cols now = Err IntegrityError.
Proof.
  unfold sql_insert_or_replace_fixture, not_null. intros H.
  destruct id as [|z|t]; [| |done];
    destruct (c_date cols); try done;
    destruct (c_status cols); try done;
    destruct (c_home_team_name cols); try done;
    destruct (c_away_team_name cols); try done.
  all: exfalso; destruct H as [[t [=]]|[[=]|[[=]|[[=]|[=]]]]].
Qed.

(** X3. A record whose values can all be bound but which has no date,
    status, home team name or away team name (the key is missing or its
    value is None) is refused with IntegrityError, and the store is left
    as it was. *)
Theorem insert_fixture_refuses_null fd now s :
  returns (bind_fixture fd) →
  dict_get fd "date" = PNone ∨ dict_get fd "status" = PNone ∨
  dict_get fd "home_team_name" = PNone ∨ dict_get fd "away_team_name" = PNone →
  insert_fixture fd now s = (Err IntegrityError, s).
Proof.
  intros [[id cols] Hb] Hnull.
  destruct (bind_fixture_required fd id cols Hb) as (Hd & Hs & Hh & Ha).
  unfold insert_fixture. apply get_connection_Err. split; [|done].
  rewrite Hb. result_simpl. cbv beta iota.
  rewrite sql_insert_or_replace_fixture_Err; [done|]. right.
  destruct Hnull as [H|[H|[H|H]]].
  - left. by eapply bind_param_None.
  - right; left. by eapply bind_param_None.
  - right; right; left. by eapply bind_param_None.
  - right; right; right. by eapply bind_param_None.
Qed.

(** An upsert with an integer key succeeds or fails the same way on
    every store. *)
Lemma insert_fixture_int_key fd now z :
  bind_param (dict_get fd "fixture_id") = Ok (SInt z) →
  (∃ e, ∀ s0, insert_fixture fd now s0 = (Err e, s0)) ∨
  (∃ cols, ∀ s0,
     insert_fixture fd now s0
     = (Ok true,
        {| fixtures := filter (λ r, f_fixture_id r ≠ z) (fixtures s0)
                       ++ [new_fixture_row z cols now];
           attended_matches := attended_matches s0;
           attended_seq := attended_seq s0 |})).
Proof.
  intros Hid. unfold insert_fixture, get_connection.
  destruct (bind_fixture fd) as [[id cols]|e] eqn:Hb; result_simpl; cbv beta iota.
  - pose proof (bind_fixture_id _ _ _ Hb) as Hid'. rewrite Hid in Hid'.
    apply Ok_inj in Hid'. subst id.
    unfold sql_insert_or_replace_fixture, not_null. result_simpl.
    destruct (sql_is_not_null (c_date cols)); [|left; by eexists].
    destruct (sql_is_not_null (c_status cols)); [|left; by eexists].
    destruct (sql_is_not_null (c_home_team_name cols)); [|left; by eexists].
    destruct (sql_is_not_null (c_away_team_name cols)); [|left; by eexists].
    right. by exists cols.
  - left. by exists e.
Qed.

Lemma filter_ne_app_singleton (l : list fixture_row) z r :
  f_fixture_id r = z →
  filter (λ r', f_fixture_id r' ≠ z) (filter (λ r', f_fixture_id r' ≠ z) l ++ [r])
  = filter (λ r', f_fixture_id r' ≠ z) l.
Proof.
  intros Hr. rewrite filter_app, filter_cons_False, filter_nil, app_nil_r by auto.
  apply filter_all. by intros x [? _]%list_elem_of_filter.
Qed.

(** X4. The latest write wins: when two records have the same integer
    fixture id and the upsert of the second succeeds, upserting the
    first and then the second leaves the store that upserting the second
    alone leaves. *)
Theorem insert_fixture_latest_wins fd1 fd2 now1 now2 s z :
  bind_param (dict_get fd1 "fixture_id") = Ok (SInt z) →
  bind_param (dict_get fd2 "fixture_id") = Ok (SInt z) →
  (insert_fixture fd2 now2 s).1 = Ok true →
  insert_fixture fd2 now2 (insert_fixture fd1 now1 s).2 = insert_fixture fd2 now2 s.
Proof.
  intros H1 H2 Hok.
  destruct (insert_fixture_int_key fd2 now2 z H2) as [[e He]|[cols2 Hc2]].
  { rewrite He in Hok. discriminate. }
  destruct (insert_fixture_int_key fd1 now1 z H1) as [[e He]|[cols1 Hc1]].
  { by rewrite He. }
  rewrite Hc1, !Hc2. cbn [snd fixtures attended_matches attended_seq].
  by rewrite filter_ne_app_singleton.
Qed.

Lemma foldr_max_ge (rs : list fixture_row) (init : Z) :
  init ≤ foldr (λ r m, Z.max (f_fixture_id r) m) init rs ∧
  ∀ f, f ∈ rs → f_fixture_id f ≤ foldr (λ r m, Z.max (f_fixture_id r) m) init rs.
Proof.
  induction rs as [|r rs [IH1 IH2]]; cbn [foldr].
  - split; [lia|]. by intros f ?%elem_of_nil.
  - split; [lia|]. intros f [->|Hin]%elem_of_cons; [lia|].
    specialize (IH2 f Hin). lia.
Qed.

Lemma new_rowid_gt (rows : list fixture_row) f :
  f ∈ rows → f_fixture_id f < new_rowid rows.
Proof.
  destruct rows as [|r rs]; [by intros ?%elem_of_nil|]. unfold new_rowid.
  destruct (foldr_max_ge rs (f_fixture_id r)) as [H1 H2].
  intros [->|Hin]%elem_of_cons; [lia|]. specialize (H2 f Hin). lia.
Qed.

Lemma new_rowid_le (rows : list fixture_row) (bound : Z) :
  1 ≤ bound → (∀ f, f ∈ rows → f_fixture_id f < bound) → new_rowid rows ≤ bound.
Proof.
  intros Hb Hrows. destruct rows as [|r rs]; [done|]. unfold new_rowid.
  assert (foldr (λ r' m, Z.max (f_fixture_id r') m) (f_fixture_id r) rs < bound);
    [|lia].
  assert (Hr : f_fixture_id r < bound) by (apply Hrows; left).
  assert (Hrs : ∀ f, f ∈ rs → f_fixture_id f < bound)
    by (intros f Hf; apply Hrows; by right).
  clear Hrows. induction rs as [|r' rs IH]; cbn [foldr]; [done|].
  assert (f_fixture_id r' < bound) by (apply Hrs; left).
  assert (foldr (λ r' m, Z.max (f_fixture_id r') m) (f_fixture_id r) rs < bound)
    by (apply IH; intros f Hf; apply Hrs; by right).
  lia.
Qed.

(** X5. A record without a fixture id never replaces a row.  While the
    largest possible key, 2^63 - 1, is not in use, a successful upsert
    of such a record appends one row whose key is one more than the
    largest key in the table (1 in an empty table), so it is larger
    than every key there and still a key SQLite can hold; syncing the
    record again adds a second row. *)
Theorem insert_fixture_without_id fd now s s' :
  dict_get fd "fixture_id" = PNone →
  (∀ f, f ∈ fixtures s → f_fixture_id f < int64_max) →
  insert_fixture fd now s = (Ok true, s') →
  ∃ row, fixtures s' = fixtures s ++ [row] ∧
         f_fixture_id row = new_rowid (fixtures s) ∧
         f_fixture_id row ≤ int64_max ∧
         ∀ f, f ∈ fixtures s → f_fixture_id f < f_fixture_id row.
Proof.
  intros Hnone Hroom [(e & [=] & _)|(_ & id & cols & Hb & Hi)]%insert_fixture_inv.
  apply bind_fixture_id in Hb. rewrite Hnone in Hb. apply Ok_inj in Hb. subst id.
  apply sql_insert_or_replace_fixture_Ok in Hi as (rowid & Hid & Hf & _ & _).
  destruct Hid as [[_ ->]|[=]].
  exists (new_fixture_row (new_rowid (fixtures s)) cols now).
  split; [|split; [done|split]].
  - rewrite Hf. f_equal. apply filter_all. intros f Hf'.
    pose proof (new_rowid_gt _ _ Hf'). lia.
  - cbn [new_fixture_row f_fixture_id]. by apply new_rowid_le.
  - intros f Hf'. by apply new_rowid_gt.
Qed.

End InsertMore.

(** ** The store: removing a mark *)

Lemma length_filter_lt_iff {A} (P : A → Prop) `{!∀ x, Decision (P x)} (l : list A) :
  (length (filter P l) < length l)%nat ↔ ∃ x, x ∈ l ∧ ¬ P x.
Proof.
  split.
  - intros Hlt. destruct (decide (Exists (λ x, ¬ P x) l)) as [He|He].
    + by apply Exists_exists in He.
    + rewrite filter_all in Hlt; [lia|]. intros x Hx.
      destruct (decide (P x)); [done|]. exfalso. apply He, Exists_exists. eauto.
  - intros (x & Hx & HP). by eapply length_filter_lt.
Qed.

(** X6. For a fixture id in SQLite's integer range (the convention of
    this file) [unmark_attended] never raises.  It returns true exactly when
    the fixture had a mark; afterwards the fixture has none, every mark
    of another fixture is as before, and the fixtures and the counter
    of mark ids are untouched. *)
Theorem unmark_attended_removes fixture_id s :
  ∃ removed s',
    unmark_attended fixture_id s = (Ok removed, s') ∧
    (removed = true ↔ ∃ a, a ∈ attended_matches s ∧ am_fixture_id a = fixture_id) ∧
    (∀ a, a ∈ attended_matches s' ↔
          a ∈ attended_matches s ∧ am_fixture_id a ≠ fixture_id) ∧
    fixtures s' = fixtures s ∧
    attended_seq s' = attended_seq s.
Proof.
  unfold unmark_attended, get_connection. do 2 eexists.
  split; [reflexivity|]. cbn [fixtures attended_matches attended_seq].
  split; [|split; [|done]].
  - rewrite bool_decide_eq_true.
    assert (Hlt : (0 < length (attended_matches s)
                       - length (filter (λ a, am_fixture_id a ≠ fixture_id)
                                        (attended_matches s)))%nat
                  ↔ (length (filter (λ a, am_fixture_id a ≠ fixture_id)
                                    (attended_matches s))
                     < length (attended_matches s))%nat) by lia.
    rewrite Hlt, length_filter_lt_iff. split.
    + intros (a & Ha & Hne). exists a. split; [done|].
      by destruct (decide (am_fixture_id a = fixture_id)).
    + intros (a & Ha & Heq). exists a. split; [done|]. by intros ?.
  - intros a. rewrite list_elem_of_filter. split; intros [? ?]; done.
Qed.

(** X7. Marking a fixture that has no mark and unmarking it again
    returns true twice and restores the rows of both tables; only the
    counter of mark ids has moved, so a later mark of the fixture gets
    an id that was never used. *)
Theorem mark_then_unmark fixture_id notes now s :
  (∀ a, a ∈ attended_matches s → am_fixture_id a ≠ fixture_id) →
  ∃ s1 s2,
    mark_attended fixture_id notes now s = (Ok true, s1) ∧
    unmark_attended fixture_id s1 = (Ok true, s2) ∧
    fixtures s2 = fixtures s ∧
    attended_matches s2 = attended_matches s ∧
    attended_seq s2 = attended_seq s + 1 ∧
    ∀ notes' now', ∃ row s3,
      mark_attended fixture_id notes' now' s2 = (Ok true, s3) ∧
      attended_matches s3 = attended_matches s ++ [row] ∧
      am_id row = attended_seq s + 2.
Proof.
  intros Hfresh.
  assert (Hnot : ¬ Exists (λ a, am_fixture_id a = fixture_id) (attended_matches s)).
  { intros (a & Ha & Heq)%Exists_exists. by apply (Hfresh a). }
  assert (Hkeep : filter (λ a, am_fixture_id a ≠ fixture_id) (attended_matches s)
                  = attended_matches s) by by apply filter_all.
  do 2 eexists. split.
  { unfold mark_attended, get_connection, sql_insert_attended.
    rewrite bool_decide_eq_false_2 by done. reflexivity. }
  split.
  { unfold unmark_attended, get_connection.
    cbn [fixtures attended_matches attended_seq].
    rewrite filter_app, Hkeep, filter_cons_False, filter_nil, app_nil_r by auto.
    rewrite length_app. cbn [length].
    rewrite bool_decide_eq_true_2 by lia. reflexivity. }
  cbn [fixtures attended_matches attended_seq].
  repeat (split; [done|]).
  intros notes' now'. do 2 eexists. split.
  { unfold mark_attended, get_connection, sql_insert_attended.
    cbn [fixtures attended_matches attended_seq].
    rewrite bool_decide_eq_false_2 by done. reflexivity. }
  cbn [fixtures attended_matches attended_seq]. split; [done|].
  cbn [am_id]. lia.
Qed.

(** X8. Once a fixture is unmarked, no query with [attended_only]
    returns it, and every other query shows it with the flag 0 and no
    date or notes of a mark. *)
Theorem unmark_attended_hides fixture_id team_id status s :
  let s' := (unmark_attended fixture_id s).2 in
  (∀ v, v ∈ get_fixtures team_id status true s' →
        f_fixture_id (v_fixture v) ≠ fixture_id) ∧
  (∀ v, v ∈ get_fixtures team_id status false s' →
        f_fixture_id (v_fixture v) = fixture_id →
        v_attended v = 0 ∧ v_attended_date v = SNull ∧ v_notes v = SNull).
Proof.
  intros s'.
  assert (Hgone : ∀ a, a ∈ attended_matches s' → am_fixture_id a ≠ fixture_id).
  { intros a. unfold s', unmark_attended, get_connection.
    cbn [snd attended_matches]. by intros [? _]%list_elem_of_filter. }
  assert (Hjoin : ∀ f o, (f, o) ∈ left_join (fixtures s') (attended_matches s') →
                         f_fixture_id f = fixture_id → o = None).
  { intros f [a|] [_ Ho]%elem_of_left_join Hid; [|done].
    destruct Ho as [Ha Heq]. exfalso. apply (Hgone a Ha). congruence. }
  split.
  - intros v ([f o] & Hj & Hw & ->)%elem_of_get_fixtures Hid.
    apply fixtures_where_true in Hw as (_ & _ & Ha).
    rewrite (Hjoin f o Hj Hid) in Ha. by destruct (Ha eq_refl).
  - intros v ([f o] & Hj & _ & ->)%elem_of_get_fixtures Hid.
    by rewrite (Hjoin f o Hj Hid).
Qed.

(** ** The store: one row per fixture *)

Lemma filter_key_length {A} (g : A → Z) (l : list A) (k : Z) :
  NoDup (g <$> l) → (length (filter (λ a, k = g a) l) ≤ 1)%nat.
Proof.
  induction l as [|x l IH]; intros Hnd; [simpl; lia|].
  rewrite fmap_cons in Hnd. apply NoDup_cons in Hnd as [Hx Hnd].
  rewrite filter_cons. destruct (decide (k = g x)) as [->|Hne]; [|by apply IH].
  rewrite filter_none; [simpl; lia|].
  intros y Hy Heq. apply Hx. apply list_elem_of_fmap. by exists y.
Qed.

(** With UNIQUE(fixture_id) on the marks, the left join has one row
    per fixture, in the order of the table. *)
Lemma left_join_fst (fs : list fixture_row) (ams : list attended_row) :
  NoDup (am_fixture_id <$> ams) → fst <$> left_join fs ams = fs.
Proof.
  intros Hnd. induction fs as [|f fs IH]; [done|].
  change (left_join (f :: fs) ams)
    with (match filter (λ a, f_fixture_id f = am_fixture_id a) ams with
          | [] => [(f, None)]
          | ms => (λ a, (f, Some a)) <$> ms
          end ++ left_join fs ams).
  rewrite fmap_app, IH.
  pose proof (filter_key_length am_fixture_id ams (f_fixture_id f) Hnd) as Hlen.
  destruct (filter _ ams) as [|a [|a' ms]]; [done|done|simpl in Hlen; lia].
Qed.

Lemma get_fixtures_fixtures team_id status attended_only s :
  v_fixture <$> get_fixtures team_id status attended_only s
  ≡ₚ fst <$> filter (λ j, sql_true (fixtures_where team_id status attended_only j) = true)
                    (left_join (fixtures s) (attended_matches s)).
Proof.
  unfold get_fixtures. rewrite <- list_fmap_compose.
  rewrite merge_sort_Permutation. done.
Qed.

(** Without filters the query returns the rows of the table, each
    once. *)
Lemma get_fixtures_all s :
  NoDup (am_fixture_id <$> attended_matches s) →
  v_fixture <$> get_fixtures None None false s ≡ₚ fixtures s.
Proof.
  intros Ha. rewrite get_fixtures_fixtures, filter_all by done.
  by rewrite left_join_fst.
Qed.

(** X9. In a store that satisfies the schema's constraints no query
    returns a fixture twice or returns more rows than the table has,
    and the query without filters returns every fixture exactly once. *)
Theorem get_fixtures_once team_id status attended_only s :
  store_wf s →
  NoDup (f_fixture_id <$> (v_fixture <$> get_fixtures team_id status attended_only s)) ∧
  (length (get_fixtures team_id status attended_only s) ≤ length (fixtures s))%nat ∧
  v_fixture <$> get_fixtures None None false s ≡ₚ fixtures s.
Proof.
  intros (Hf & Ha & _).
  assert (Hsub : fst <$> filter
                   (λ j, sql_true (fixtures_where team_id status attended_only j) = true)
                   (left_join (fixtures s) (attended_matches s))
                 `sublist_of` fixtures s).
  { rewrite <- (left_join_fst (fixtures s) (attended_matches s) Ha) at 2.
    apply fmap_sublist, sublist_filter. }
  split; [|split].
  - rewrite get_fixtures_fixtures.
    eapply sublist_NoDup; [exact Hf|]. by apply fmap_sublist.
  - rewrite <- (length_fmap v_fixture), get_fixtures_fixtures.
    by apply sublist_length.
  - by apply get_fixtures_all.
Qed.

Section Lookup.
Context {DT : DatetimeLib}.

(** X10. Insert and look up: after a successful upsert of a record with
    an integer fixture id, in a store that satisfies the schema's
    constraints, the query without filters has exactly one row for that
    id.  When the bound values are of the kind their columns keep
    (numbers or non-numeric text in the INTEGER and TIMESTAMP columns,
    text in the TEXT columns, NULL anywhere) and the timestamp is no
    number, that row holds the values bound from the record and the
    time of the upsert. *)
Theorem insert_then_get fd now s s' z cols :
  store_wf s →
  bind_fixture fd = Ok (SInt z, cols) →
  stored_as_bound cols = true →
  may_be_numeric now = false →
  insert_fixture fd now s = (Ok true, s') →
  ∃ v,
    filter (λ v, f_fixture_id (v_fixture v) = z) (get_fixtures None None false s') = [v] ∧
    v_fixture v = new_fixture_row z cols now.
Proof.
  intros Hwf Hbind _ _ Hins.
  pose proof (insert_fixture_wf _ _ _ _ _ Hwf Hins) as Hwf'.
  destruct (insert_fixture_upsert _ _ _ _ Hins)
    as (rowid & id & cols' & Hb & Hrow & Hnew & _).
  pose proof (eq_trans (eq_sym Hbind) Hb) as Heq. apply Ok_inj in Heq.
  injection Heq as <- <-. destruct Hrow as [[[=] _]|[= <-]].
  destruct Hwf' as (_ & Ha' & _).
  pose proof (get_fixtures_all s' Ha') as Hperm.
  assert (Hone : v_fixture <$> filter (λ v, f_fixture_id (v_fixture v) = z)
                                      (get_fixtures None None false s')
                 ≡ₚ [new_fixture_row z cols now]).
  { rewrite <- Hnew, <- Hperm. clear.
    induction (get_fixtures None None false s') as [|v l IH]; [done|].
    rewrite fmap_cons, !filter_cons.
    destruct (decide (f_fixture_id (v_fixture v) = z)); [|done].
    rewrite fmap_cons. by f_equiv. }
  apply Permutation_singleton_r in Hone.
  destruct (filter _ (get_fixtures None None false s')) as [|v [|v' l]];
    try discriminate.
  injection Hone as Hv. by exists v.
Qed.

End Lookup.

Section ReachableMore.
Context {DT : DatetimeLib}.
Variable get_team_fixtures : Z → Z → Z → result (list (gmap string pyval)).
Variable clock : nat → string.

Lemma sync_loop_reachable k fixtures n s :
  reachable s → reachable (sync_loop clock k fixtures n s).2.
Proof.
  revert k n s. induction fixtures as [|raw rest IH]; intros k n s Hs; [done|].
  cbn [sync_loop]. destruct (parse_fixture raw) as [fd|e]; [|done].
  pose proof (reach_insert fd (clock k) s Hs) as Hs1.
  destruct (insert_fixture fd (clock k) s) as [[b|e] s1]; [|done].
  by apply IH.
Qed.

Lemma sync_reachable team_id competition season s :
  reachable s →
  reachable (sync_team_fixtures get_team_fixtures clock team_id competition season s).2.
Proof.
  intros Hs. unfold sync_team_fixtures, sync_body.
  destruct (COMPETITIONS !! competition) as [comp|]; [|done].
  destruct (get_team_fixtures team_id (comp_id comp) season) as [fixtures|e]; [|done].
  pose proof (sync_loop_reachable 0 fixtures 0 s Hs) as Hl.
  by destruct (sync_loop clock 0 fixtures 0 s) as [[n|e] s1].
Qed.

(** X11. The schema's constraints are kept: in every store reached from
    the empty database by upserts, marks, unmarks and syncs, fixture
    ids are unique, no fixture has two marks, mark ids are unique and
    none exceeds the counter they are drawn from. *)
Theorem reachable_constraints team_id competition season s :
  reachable s →
  store_wf s ∧
  store_wf (sync_team_fixtures get_team_fixtures clock team_id competition season s).2.
Proof.
  intros Hs. split; [by apply reachable_wf|].
  by apply reachable_wf, sync_reachable.
Qed.

End ReachableMore.

(** ** Statistics: stadiums and bounds *)

Lemma bump_fst (k : sqlval * sqlval) (acc : list (sqlval * sqlval * Z)) :
  fst <$> bump k acc = if decide (k ∈ fst <$> acc) then fst <$> acc
                       else (fst <$> acc) ++ [k].
Proof.
  induction acc as [|[k' n] acc IH]; [done|].
  cbn [bump]. destruct (decide (k = k')) as [->|Hne].
  - rewrite decide_True by (rewrite fmap_cons; left). done.
  - rewrite !fmap_cons, IH. cbn [fst].
    destruct (decide (k ∈ fst <$> acc)) as [Hin|Hnin].
    + rewrite decide_True by by right. done.
    + rewrite decide_False; [done|]. by intros [?|?]%elem_of_cons.
Qed.

(** The number recorded for a key after one more occurrence. *)
Lemma bump_lookup (k k0 : sqlval * sqlval) (acc : list (sqlval * sqlval * Z)) n :
  NoDup (fst <$> acc) →
  (k0, n) ∈ bump k acc ↔
  if decide (k0 = k)
  then (if decide (k ∈ fst <$> acc) then (k, n - 1) ∈ acc else n = 1)
  else (k0, n) ∈ acc.
Proof.
  assert (Hfst : ∀ (l : list (sqlval * sqlval * Z)) x y, (x, y) ∈ l → x ∈ fst <$> l).
  { intros l x y Hxy. apply list_elem_of_fmap. by exists (x, y). }
  induction acc as [|[k' m] acc IH]; intros Hnd.
  - cbn [bump]. rewrite list_elem_of_singleton.
    destruct (decide (k0 = k)) as [Heq|Hne].
    + rewrite decide_False by by intros ?%elem_of_nil.
      split; [by intros [= _ Hn]|intros Hn; by rewrite Heq, Hn].
    + split; [by intros [= ? _]|by intros ?%elem_of_nil].
  - rewrite fmap_cons in Hnd. apply NoDup_cons in Hnd as [Hk' Hnd]. cbn [fst] in Hk'.
    specialize (IH Hnd). cbn [bump].
    destruct (decide (k = k')) as [Hkk'|Hkk'].
    + subst k'. rewrite (decide_True (P := k ∈ _)) by (rewrite fmap_cons; left).
      destruct (decide (k0 = k)) as [Heq|Hne]; rewrite !elem_of_cons.
      * subst k0. split.
        -- intros [[= Hn]|Hin]; [left; f_equal; lia|]. by apply Hfst in Hin.
        -- intros [[= Hn]|Hin]; [left; f_equal; lia|]. by apply Hfst in Hin.
      * split.
        -- intros [[= ? _]|Hin]; [done|by right].
        -- intros [[= ? _]|Hin]; [done|by right].
    + rewrite elem_of_cons, IH. rewrite fmap_cons. cbn [fst].
      destruct (decide (k0 = k)) as [Heq|Hne].
      * subst k0. destruct (decide (k ∈ fst <$> acc)) as [Hin|Hnin].
        -- rewrite decide_True by by right. rewrite elem_of_cons. split.
           ++ intros [[= ? _]|?]; [done|by right].
           ++ intros [[= ? _]|?]; [done|by right].
        -- rewrite decide_False by (intros [?|?]%elem_of_cons; done). split.
           ++ intros [[= ? _]|?]; done.
           ++ intros Hn. by right.
      * by rewrite elem_of_cons.
Qed.

Lemma bump_NoDup (k : sqlval * sqlval) (acc : list (sqlval * sqlval * Z)) :
  NoDup (fst <$> acc) → NoDup (fst <$> bump k acc).
Proof.
  intros Hnd. rewrite bump_fst. destruct (decide (k ∈ fst <$> acc)); [done|].
  apply NoDup_app. split; [done|]. split; [|apply NoDup_singleton].
  by intros x Hx ->%list_elem_of_singleton.
Qed.

Lemma group_count_snoc keys k : group_count (keys ++ [k]) = bump k (group_count keys).
Proof. unfold group_count. by rewrite foldl_app. Qed.

(** [group_count] has one entry per distinct key, holding the number
    of its occurrences. *)
Lemma group_count_spec (keys : list (sqlval * sqlval)) :
  NoDup (fst <$> group_count keys) ∧
  (∀ k, k ∈ fst <$> group_count keys ↔ k ∈ keys) ∧
  (∀ k n, (k, n) ∈ group_count keys ↔
          k ∈ keys ∧ n = Z.of_nat (length (filter (λ k', k' = k) keys))).
Proof.
  induction keys as [|k keys (Hnd & Hin & Hcount)] using rev_ind.
  - split; [constructor|]. split.
    + intros k. split; by intros ?%elem_of_nil.
    + intros k n. split; [by intros ?%elem_of_nil|by intros [?%elem_of_nil _]].
  - rewrite group_count_snoc. split; [by apply bump_NoDup|]. split.
    + intros k0. rewrite bump_fst, elem_of_app, list_elem_of_singleton.
      destruct (decide (k ∈ fst <$> group_count keys)) as [Hk|Hk].
      * rewrite Hin. split; [by left|]. intros [?| ->]; [done|by apply Hin].
      * by rewrite elem_of_app, Hin, list_elem_of_singleton.
    + intros k0 n. rewrite bump_lookup by done.
      rewrite elem_of_app, list_elem_of_singleton, filter_app, length_app.
      destruct (decide (k0 = k)) as [->|Hne].
      * rewrite filter_cons_True, filter_nil by done. cbn [length].
        destruct (decide (k ∈ fst <$> group_count keys)) as [Hk|Hk].
        -- rewrite Hcount. split.
           ++ intros [_ ?]. split; [by right|]. lia.
           ++ intros [_ ?]. split; [by apply Hin|]. lia.
        -- assert (filter (λ k', k' = k) keys = []) as ->.
           { apply filter_none. intros x Hx ->. by apply Hk, Hin. }
           split; [intros ->; split; [by right|done]|by intros [_ ->]].
      * rewrite filter_cons_False, filter_nil by done. cbn [length].
        rewrite Hcount. split.
        -- intros [? ->]. split; [by left|]. lia.
        -- intros [[?|?] Hn]; [|done]. split; [done|]. lia.
Qed.

Lemma group_count_sum (keys : list (sqlval * sqlval)) :
  foldr Z.add 0 (snd <$> group_count keys) = Z.of_nat (length keys).
Proof.
  induction keys as [|k keys IH] using rev_ind; [done|].
  rewrite group_count_snoc, length_app. cbn [length].
  assert (Hb : ∀ acc, foldr Z.add 0 (snd <$> bump k acc)
                      = foldr Z.add 0 (snd <$> acc) + 1).
  { induction acc as [|[k' m] acc IHa]; [done|]. cbn [bump].
    destruct (decide (k = k')); rewrite !fmap_cons; cbn [foldr snd]; [lia|].
    rewrite IHa. lia. }
  rewrite Hb, IH. lia.
Qed.

#[global] Instance visits_desc_total : Total visits_desc.
Proof. intros x y. unfold visits_desc. lia. Qed.

#[global] Instance visits_desc_trans : Transitive visits_desc.
Proof. intros x y z. unfold visits_desc. lia. Qed.

(** X12. The stadiums of the statistics are listed by descending
    number of visits, one entry per (venue, city) pair of an attended
    fixture in scope; an entry's number is the number of those fixtures
    at that venue and city, and the numbers add up to [total_attended]. *)
Theorem stadiums_counts team_id s :
  let st := get_statistics team_id s in
  let venues := (λ f, (f_venue f, f_venue_city f)) <$> attended_rows team_id s in
  StronglySorted visits_desc (stadiums st) ∧
  NoDup (fst <$> stadiums st) ∧
  (∀ k n, (k, n) ∈ stadiums st ↔
          k ∈ venues ∧ n = Z.of_nat (length (filter (λ k', k' = k) venues))) ∧
  foldr Z.add 0 (snd <$> stadiums st) = total_attended st.
Proof.
  intros st venues.
  destruct (group_count_spec venues) as (Hnd & _ & Hcount).
  assert (Hperm : stadiums st ≡ₚ group_count venues)
    by apply merge_sort_Permutation.
  split; [apply StronglySorted_merge_sort; apply _|].
  split; [by rewrite Hperm|]. split.
  - intros k n. by rewrite Hperm.
  - assert (Hsum : ∀ l1 l2 : list Z, l1 ≡ₚ l2 → foldr Z.add 0 l1 = foldr Z.add 0 l2).
    { induction 1; cbn [foldr]; lia. }
    rewrite (Hsum _ (snd <$> group_count venues)) by by rewrite Hperm.
    rewrite group_count_sum. unfold venues. rewrite length_fmap. done.
Qed.

Lemma case_when_bounds c : 0 ≤ case_when c ≤ 1.
Proof. unfold case_when. destruct (sql_true c); lia. Qed.

Lemma sum_cases_bounds (g : fixture_row → Z) (rows : list fixture_row) :
  (∀ f, 0 ≤ g f ≤ 1) →
  0 ≤ foldr Z.add 0 (g <$> rows) ≤ Z.of_nat (length rows).
Proof.
  intros Hg. induction rows as [|f rows IH]; [simpl; lia|].
  rewrite fmap_cons. cbn [foldr length]. specialize (Hg f). lia.
Qed.

Lemma length_filter_impl {A} (P Q : A → Prop)
    `{!∀ x, Decision (P x), !∀ x, Decision (Q x)} (l : list A) :
  (∀ x, P x → Q x) → (length (filter P l) ≤ length (filter Q l))%nat.
Proof.
  intros HPQ. rewrite <- (list_filter_filter_l P Q l HPQ). apply length_filter.
Qed.

(** X13. For a team id other than 0, wins, draws and losses are present
    and each lies between 0 and [total_attended]. *)
Theorem wins_draws_losses_bounds t s :
  t ≠ 0 →
  let st := get_statistics (Some t) s in
  ∃ w d l, wins st = Some w ∧ draws st = Some d ∧ losses st = Some l ∧
           0 ≤ w ≤ total_attended st ∧
           0 ≤ d ≤ total_attended st ∧
           0 ≤ l ≤ total_attended st.
Proof.
  intros Ht st.
  assert (Hlen : (length (finished_rows t s) ≤ length (attended_rows (Some t) s))%nat).
  { unfold finished_rows, attended_rows.
    rewrite (proj2 (truthy_int_Some (Some t) t)) by done.
    rewrite !length_fmap. apply length_filter_impl.
    intros j Hj. by apply sql_true_and in Hj as [? _]. }
  unfold st, get_statistics. cbn [wins draws losses total_attended].
  rewrite (proj2 (truthy_int_Some (Some t) t)) by done.
  cbn [fmap option_fmap option_map fst snd]. rewrite !or_zero_sum.
  do 3 eexists. do 3 (split; [reflexivity|]).
  pose proof (sum_cases_bounds (win_case t) (finished_rows t s)
                (λ f, case_when_bounds _)).
  pose proof (sum_cases_bounds draw_case (finished_rows t s)
                (λ f, case_when_bounds _)).
  pose proof (sum_cases_bounds (loss_case t) (finished_rows t s)
                (λ f, case_when_bounds _)).
  lia.
Qed.

(** X14. When no fixture the team played is both marked as attended
    and finished, its wins, draws and losses are 0, not missing: the
    NULL that SUM gives over no rows is read as 0. *)
Theorem no_finished_match_zero t s :
  t ≠ 0 →
  (∀ f, f ∈ fixtures s → marked s f → played t f →
        f_status f ≠ SText "finished") →
  wins (get_statistics (Some t) s) = Some 0 ∧
  draws (get_statistics (Some t) s) = Some 0 ∧
  losses (get_statistics (Some t) s) = Some 0.
Proof.
  intros Ht Hnone.
  assert (Hrows : finished_rows t s = []).
  { destruct (finished_rows t s) as [|f rows] eqn:E; [done|].
    assert (Hf : f ∈ finished_rows t s) by (rewrite E; left).
    apply elem_of_finished_rows in Hf as (Hf & Hm & Hs & Hp).
    by destruct (Hnone f Hf Hm Hp). }
  unfold get_statistics. cbn [wins draws losses].
  rewrite (proj2 (truthy_int_Some (Some t) t)) by done.
  rewrite Hrows. done.
Qed.

(** ** The sync orchestrator: results, frame and partial progress *)

Section SyncMore.
Context {DT : DatetimeLib}.
Variable get_team_fixtures : Z → Z → Z → result (list (gmap string pyval)).
Variable clock : nat → string.

Lemma sync_loop_app k l1 l2 n s :
  sync_loop clock k (l1 ++ l2) n s
  = match sync_loop clock k l1 n s with
    | (Ok m, s1) => sync_loop clock (k + length l1) l2 m s1
    | (Err e, s1) => (Err e, s1)
    end.
Proof.
  revert k n s. induction l1 as [|raw l1 IH]; intros k n s.
  - cbn [app sync_loop length]. by rewrite Nat.add_0_r.
  - cbn [app sync_loop length]. destruct (parse_fixture raw) as [fd|e]; [|done].
    destruct (insert_fixture fd (clock k) s) as [[b|e] s1]; [|done].
    rewrite IH. by rewrite Nat.add_succ_r.
Qed.

(** One upsert writes only the fixtures table and deletes no fixture. *)
Lemma insert_fixture_frame fd now s :
  let s' := (insert_fixture fd now s).2 in
  attended_matches s' = attended_matches s ∧
  attended_seq s' = attended_seq s ∧
  ∀ id, id ∈ f_fixture_id <$> fixtures s → id ∈ f_fixture_id <$> fixtures s'.
Proof.
  intros s'.
  assert (Hins : insert_fixture fd now s = ((insert_fixture fd now s).1, s'))
    by apply surjective_pairing.
  split; [|split].
  - destruct (insert_fixture_inv _ _ _ _ _ Hins)
      as [(e & _ & ->)|(_ & id & cols & _ & Hi)]; [done|].
    by apply sql_insert_or_replace_fixture_Ok in Hi as (? & _ & _ & ? & _).
  - destruct (insert_fixture_inv _ _ _ _ _ Hins)
      as [(e & _ & ->)|(_ & id & cols & _ & Hi)]; [done|].
    by apply sql_insert_or_replace_fixture_Ok in Hi as (? & _ & _ & _ & ?).
  - intros id. by eapply insert_fixture_keeps_ids.
Qed.

Lemma sync_loop_frame k records n s :
  let s' := (sync_loop clock k records n s).2 in
  attended_matches s' = attended_matches s ∧
  attended_seq s' = attended_seq s ∧
  ∀ id, id ∈ f_fixture_id <$> fixtures s → id ∈ f_fixture_id <$> fixtures s'.
Proof.
  revert k n s. induction records as [|raw rest IH]; intros k n s; [done|].
  cbn [sync_loop]. destruct (parse_fixture raw) as [fd|e]; [|done].
  destruct (insert_fixture_frame fd (clock k) s) as (Ha & Hs & Hf).
  destruct (insert_fixture fd (clock k) s) as [[b|e] s1]; [|done].
  cbn [snd] in Ha, Hs, Hf.
  destruct (IH (S k) (if b then n + 1 else n) s1) as (Ha' & Hs' & Hf').
  cbv zeta. rewrite Ha', Hs', Ha, Hs. auto.
Qed.

(** X15. Whatever the provider returns, a sync leaves every attendance
    mark and the counter of mark ids as they were, and every fixture id
    that was in the table is still in it. *)
Theorem sync_keeps_marks_and_fixtures team_id competition season s :
  let s' := (sync_team_fixtures get_team_fixtures clock team_id competition season s).2 in
  attended_matches s' = attended_matches s ∧
  attended_seq s' = attended_seq s ∧
  ∀ id, id ∈ f_fixture_id <$> fixtures s → id ∈ f_fixture_id <$> fixtures s'.
Proof.
  unfold sync_team_fixtures, sync_body.
  destruct (COMPETITIONS !! competition) as [comp|]; [|done].
  destruct (get_team_fixtures team_id (comp_id comp) season) as [records|e]; [|done].
  pose proof (sync_loop_frame 0 records 0 s) as Hl.
  by destruct (sync_loop clock 0 records 0 s) as [[n|e] s1].
Qed.

(** X16. The two numbers a sync returns are equal: they are both 0, or
    both the number of records the provider returned. *)
Theorem sync_counts_equal team_id competition season s :
  let r := (sync_team_fixtures get_team_fixtures clock team_id competition season s).1 in
  r.1 = r.2 ∧
  (r = (0, 0) ∨
   ∃ comp records,
     COMPETITIONS !! competition = Some comp ∧
     get_team_fixtures team_id (comp_id comp) season = Ok records ∧
     r = (Z.of_nat (length records), Z.of_nat (length records))).
Proof.
  unfold sync_team_fixtures, sync_body.
  destruct (COMPETITIONS !! competition) as [comp|]; [|by auto].
  destruct (get_team_fixtures team_id (comp_id comp) season) as [records|e] eqn:Hget;
    [|by auto].
  destruct (sync_loop clock 0 records 0 s) as [[n|e] s1] eqn:Hloop; [|by auto].
  apply sync_loop_count in Hloop. subst n. cbn [fst snd].
  split; [lia|]. right. exists comp, records.
  split; [done|]. split; [done|]. f_equal; lia.
Qed.

(** X17. Partial progress is kept: when the records before a failing
    one were upserted, the sync returns (0, 0) and the store is the one
    those upserts left; nothing is rolled back and the records after
    the failing one are not looked at. *)
Theorem sync_keeps_partial_progress team_id competition season s
    comp before bad later n s1 e :
  COMPETITIONS !! competition = Some comp →
  get_team_fixtures team_id (comp_id comp) season = Ok (before ++ bad :: later) →
  sync_loop clock 0 before 0 s = (Ok n, s1) →
  (parse_fixture bad = Err e ∨
   ∃ fd, parse_fixture bad = Ok fd ∧
         (insert_fixture fd (clock (length before)) s1).1 = Err e) →
  sync_team_fixtures get_team_fixtures clock team_id competition season s
  = ((0, 0), s1).
Proof.
  intros Hcomp Hget Hbefore Hbad. unfold sync_team_fixtures, sync_body.
  rewrite Hcomp, Hget, sync_loop_app, Hbefore. cbn [sync_loop Nat.add].
  destruct Hbad as [->|(fd & -> & Hins)]; [done|].
  destruct (insert_fixture fd (clock (length before)) s1) as [[b|e'] s2] eqn:Hi;
    [discriminate|].
  by destruct (insert_fixture_inv _ _ _ _ _ Hi) as [(? & _ & ->)|[? _]].
Qed.

(** Whether an upsert succeeds depends on the record alone. *)
Lemma insert_fixture_success_independent fd now now' s s' :
  (insert_fixture fd now s).1 = Ok true → (insert_fixture fd now' s').1 = Ok true.
Proof.
  unfold insert_fixture, get_connection.
  destruct (bind_fixture fd) as [[id cols]|e]; [|done]. result_simpl. cbv beta iota.
  unfold sql_insert_or_replace_fixture, not_null.
  destruct id as [|z|t]; [| |done]; result_simpl;
    destruct (sql_is_not_null (c_date cols)); try done;
    destruct (sql_is_not_null (c_status cols)); try done;
    destruct (sql_is_not_null (c_home_team_name cols)); try done;
    destruct (sql_is_not_null (c_away_team_name cols)); done.
Qed.

Lemma sync_loop_all_stored k records n s :
  Forall (λ raw, ∃ fd, parse_fixture raw = Ok fd ∧
                       (insert_fixture fd "" empty_store).1 = Ok true) records →
  (sync_loop clock k records n s).1 = Ok (n + Z.of_nat (length records)).
Proof.
  intros Hall. revert k n s.
  induction Hall as [|raw rest (fd & Hp & Hi) _ IH]; intros k n s.
  - cbn [sync_loop fst length]. f_equal. lia.
  - cbn [sync_loop]. rewrite Hp.
    pose proof (insert_fixture_success_independent fd "" (clock k) empty_store s Hi)
      as Hk.
    destruct (insert_fixture fd (clock k) s) as [[b|e] s1]; [|discriminate].
    cbn [fst] in Hk. apply Ok_inj in Hk. subst b.
    rewrite IH. cbn [length]. f_equal. lia.
Qed.

(** X18. Whether an upsert succeeds does not depend on the store or on
    the time.  So when every record the provider returns is one that
    [parse_fixture] accepts and that can be upserted into the empty
    database, the sync of a known competition returns the number of
    records twice, whatever the store holds. *)
Theorem sync_all_stored team_id competition season s comp records :
  COMPETITIONS !! competition = Some comp →
  get_team_fixtures team_id (comp_id comp) season = Ok records →
  Forall (λ raw, ∃ fd, parse_fixture raw = Ok fd ∧
                       (insert_fixture fd "" empty_store).1 = Ok true) records →
  (sync_team_fixtures get_team_fixtures clock team_id competition season s).1
  = (Z.of_nat (length records), Z.of_nat (length records)).
Proof.
  intros Hcomp Hget Hall. unfold sync_team_fixtures, sync_body.
  rewrite Hcomp, Hget.
  pose proof (sync_loop_all_stored 0 records 0 s Hall) as Hl.
  destruct (sync_loop clock 0 records 0 s) as [[n|e] s1]; [|discriminate].
  cbn [fst] in *. apply Ok_inj in Hl. subst n. done.
Qed.

End SyncMore.

(** ** The service: listing with a limit, marking, team search *)

Lemma py_slice_to_take {A} (n : Z) (l : list A) :
  ∃ k, py_slice_to n l = take k l ∧
       Z.of_nat (length (py_slice_to n l))
       = if bool_decide (0 ≤ n) then Z.min n (Z.of_nat (length l))
         else Z.max 0 (Z.of_nat (length l) + n).
Proof.
  unfold py_slice_to. case_bool_decide.
  - exists (Z.to_nat n). split; [done|]. rewrite length_take. lia.
  - exists (length l - Z.to_nat (- n))%nat. split; [done|]. rewrite length_take. lia.
Qed.

(** X19. [list_fixtures] returns a prefix of what [get_fixtures]
    returns, and no row it leaves out is more recent than a row it
    returns.  Without a limit, or with the limit 0, the prefix is the
    whole list; a positive limit keeps that many rows at most; a
    negative limit -k drops the k oldest rows instead of limiting. *)
Theorem list_fixtures_limit team_id status attended_only limit s :
  let all := get_fixtures team_id status attended_only s in
  let shown := list_fixtures team_id status attended_only limit s in
  ∃ rest,
    all = shown ++ rest ∧
    (∀ v w, v ∈ shown → w ∈ rest → view_date_desc v w) ∧
    Z.of_nat (length shown)
    = match limit with
      | None => Z.of_nat (length all)
      | Some n =>
          if Z.eqb n 0 then Z.of_nat (length all)
          else if Z.ltb 0 n then Z.min n (Z.of_nat (length all))
          else Z.max 0 (Z.of_nat (length all) + n)
      end.
Proof.
  intros all shown.
  assert (Hk : ∃ k, shown = take k all ∧
    Z.of_nat (length shown)
    = match limit with
      | None => Z.of_nat (length all)
      | Some n =>
          if Z.eqb n 0 then Z.of_nat (length all)
          else if Z.ltb 0 n then Z.min n (Z.of_nat (length all))
          else Z.max 0 (Z.of_nat (length all) + n)
      end).
  { unfold shown, list_fixtures. fold all.
    destruct limit as [n|]; cbn [truthy_int].
    - destruct (Z.eqb_spec n 0) as [->|Hn].
      + exists (length all). by rewrite firstn_all.
      + destruct (py_slice_to_take n all) as (k & Hk & Hlen).
        exists k. split; [done|]. rewrite Hlen.
        case_bool_decide; destruct (Z.ltb_spec 0 n); lia.
    - exists (length all). by rewrite firstn_all. }
  destruct Hk as (k & Hshown & Hlen).
  exists (drop k all). split; [by rewrite Hshown, take_drop|].
  split; [|exact Hlen].
  intros v w Hv Hw.
  pose proof (get_fixtures_sorted team_id status attended_only s) as Hsorted.
  fold all in Hsorted. rewrite <- (take_drop k all) in Hsorted.
  rewrite Hshown in Hv.
  exact (StronglySorted_app_1_elem_of _ _ _ _ _ Hsorted Hv Hw).
Qed.

Section MarkMore.
Context {DT : DatetimeLib}.

Lemma mark_match_attended_fresh fixture_id notes now s :
  (∀ a, a ∈ attended_matches s → am_fixture_id a ≠ fixture_id) →
  mark_match_attended fixture_id notes now s
  = (true,
     {| fixtures := fixtures s;
        attended_matches :=
          attended_matches s ++
          [ {| am_id := attended_seq s + 1; am_fixture_id := fixture_id;
               am_attended_date := SText now;
               am_notes := sql_opt_text notes |} ];
        attended_seq := attended_seq s + 1 |}).
Proof.
  intros Hfresh.
  unfold mark_match_attended, mark_attended, get_connection, sql_insert_attended.
  rewrite bool_decide_eq_false_2; [done|].
  intros (a & Ha & Heq)%Exists_exists. by apply (Hfresh a).
Qed.

Lemma mark_match_attended_marked fixture_id notes now s a :
  a ∈ attended_matches s → am_fixture_id a = fixture_id →
  mark_match_attended fixture_id notes now s = (false, s).
Proof.
  intros Ha Heq.
  unfold mark_match_attended, mark_attended, get_connection, sql_insert_attended.
  rewrite bool_decide_eq_true_2; [done|].
  apply Exists_exists. by exists a.
Qed.

(** X20. For a fixture id in SQLite's integer range (the convention
    of this file) [mark_match_attended] returns True exactly when the
    fixture had no mark.  When it returns False the store is as it was; when it
    returns True, a fixture of the table with that id is listed by the
    attended-only query as attended, with the time of the call and the
    notes given. *)
Theorem mark_match_attended_result fixture_id notes now s :
  let r := mark_match_attended fixture_id notes now s in
  (r.1 = true ↔ ∀ a, a ∈ attended_matches s → am_fixture_id a ≠ fixture_id) ∧
  (r.1 = false → r.2 = s) ∧
  (r.1 = true →
   ∀ f, f ∈ fixtures s → f_fixture_id f = fixture_id →
     {| v_fixture := f; v_attended := 1;
        v_attended_date := SText now; v_notes := sql_opt_text notes |}
     ∈ get_fixtures None None true r.2).
Proof.
  intros r. unfold r.
  destruct (decide (Exists (λ a, am_fixture_id a = fixture_id) (attended_matches s)))
    as [He|He].
  - apply Exists_exists in He as (a & Ha & Heq).
    rewrite (mark_match_attended_marked _ notes now _ _ Ha Heq). cbn [fst snd].
    split; [|split]; [|done|done].
    split; [done|]. intros Hfresh. by destruct (Hfresh a Ha).
  - assert (Hfresh : ∀ a, a ∈ attended_matches s → am_fixture_id a ≠ fixture_id).
    { intros a Ha Heq. apply He, Exists_exists. by exists a. }
    rewrite (mark_match_attended_fresh _ notes now _ Hfresh). cbn [fst snd].
    split; [done|]. split; [done|]. intros _ f Hf Hid.
    apply elem_of_get_fixtures.
    exists (f, Some {| am_id := attended_seq s + 1; am_fixture_id := fixture_id;
                       am_attended_date := SText now;
                       am_notes := sql_opt_text notes |}).
    split; [|done]. apply elem_of_left_join. cbn [fixtures attended_matches].
    split; [done|]. split; [|done]. apply elem_of_app. right. apply list_elem_of_here.
Qed.

Lemma left_join_snoc_unmatched fs ams a :
  (∀ f, f ∈ fs → f_fixture_id f ≠ am_fixture_id a) →
  left_join fs (ams ++ [a]) = left_join fs ams.
Proof.
  intros Hun. unfold left_join. induction fs as [|f fs IH]; [done|].
  cbn [mbind list_bind]. change (list_bind _ _ ?f ?l) with (l ≫= f).
  rewrite IH by (intros f' Hf'; apply Hun; by right).
  f_equal. rewrite filter_app, filter_cons_False, filter_nil, app_nil_r; [done|].
  apply Hun. by left.
Qed.

Lemma inner_join_snoc_unmatched ams fs a :
  (∀ f, f ∈ fs → f_fixture_id f ≠ am_fixture_id a) →
  inner_join (ams ++ [a]) fs = inner_join ams fs.
Proof.
  intros Hun. unfold inner_join. rewrite bind_app.
  cbn [mbind list_bind]. change (list_bind _ _ ?f ?l) with (l ≫= f).
  rewrite (filter_none (λ f, am_fixture_id a = f_fixture_id f) fs).
  - cbn [fmap list_fmap app]. by rewrite app_nil_r.
  - intros f Hf Heq. by apply (Hun f Hf).
Qed.

(** X21. The fixtures table is not consulted when a match is marked:
    marking an id that no fixture has succeeds, and the mark it leaves
    changes no answer of [get_fixtures] and no statistics. *)
Theorem mark_unknown_fixture fixture_id notes now s :
  (∀ a, a ∈ attended_matches s → am_fixture_id a ≠ fixture_id) →
  (∀ f, f ∈ fixtures s → f_fixture_id f ≠ fixture_id) →
  ∃ s', mark_match_attended fixture_id notes now s = (true, s') ∧
        (∃ a, a ∈ attended_matches s' ∧ am_fixture_id a = fixture_id) ∧
        (∀ team_id status attended_only,
           get_fixtures team_id status attended_only s'
           = get_fixtures team_id status attended_only s) ∧
        (∀ team_id,
           get_attendance_statistics team_id s'
           = get_attendance_statistics team_id s).
Proof.
  intros Hfresh Hunknown.
  eexists. split; [by apply mark_match_attended_fresh|].
  cbn [attended_matches].
  split.
  { eexists. split; [apply elem_of_app; right; apply list_elem_of_here|done]. }
  split.
  - intros team_id status attended_only. unfold get_fixtures.
    cbn [fixtures attended_matches].
    by rewrite left_join_snoc_unmatched.
  - intros team_id.
    unfold get_attendance_statistics, get_statistics, attended_rows, finished_rows.
    cbn [fixtures attended_matches].
    by rewrite inner_join_snoc_unmatched.
Qed.

End MarkMore.

Section TeamSearchMore.
Context {DT : DatetimeLib}.
Variable search_team : string → string → result (list pyval).

Lemma print_result_is_Some r :
  is_Some (print_result r) ↔
  ∃ team name id, py_getitem r "team" = Some team ∧
                  py_getitem team "name" = Some name ∧
                  py_getitem team "id" = Some id.
Proof.
  unfold print_result. split.
  - intros [[] H].
    destruct (py_getitem r "team") as [team|]; [|done]. cbn in H.
    destruct (py_getitem team "name") as [name|] eqn:Hn; [|done]. cbn in H.
    destruct (py_getitem team "id") as [id|] eqn:Hi; [|done]. eauto 7.
  - intros (team & name & id & -> & Hn & Hi). cbn. rewrite Hn. cbn. rewrite Hi. by eexists.
Qed.

(** X22. [search_and_select_team] can only return the team of the
    first search result, and it returns it exactly when the search
    succeeded with at least one result and every result, not only the
    first, has a team with a name and an id.  In every other case,
    among them a failed search and a later result that is malformed,
    it returns None. *)
Theorem search_and_select_team_first team_name country team :
  search_and_select_team search_team team_name country = Some team ↔
  ∃ first rest,
    search_team team_name country = Ok (first :: rest) ∧
    py_getitem first "team" = Some team ∧
    Forall (λ r, ∃ t name id, py_getitem r "team" = Some t ∧
                              py_getitem t "name" = Some name ∧
                              py_getitem t "id" = Some id) (first :: rest).
Proof.
  unfold search_and_select_team.
  destruct (search_team team_name country) as [teams|e];
    [|split; [done|by intros (? & ? & ? & _)]].
  destruct teams as [|first rest]; [split; [done|by intros (? & ? & ? & _)]|].
  assert (Hall : ∀ l : list pyval,
            is_Some (mapM print_result l) ↔
            Forall (λ r, ∃ t name id, py_getitem r "team" = Some t ∧
                                      py_getitem t "name" = Some name ∧
                                      py_getitem t "id" = Some id) l).
  { intros l. rewrite mapM_is_Some. apply Forall_proper; [|done].
    intros r. apply print_result_is_Some. }
  destruct rest as [|second rest].
  - split.
    + intros H.
      destruct (py_getitem first "team") as [t|] eqn:Ht; [|done]. cbn in H.
      destruct (py_getitem t "name") as [name|] eqn:Hn; [|done]. cbn in H.
      destruct (py_getitem t "id") as [id|] eqn:Hi; [|done]. cbn in H.
      injection H as <-. exists first, []. split; [done|]. split; [done|].
      apply Forall_singleton. eauto 7.
    + intros (f & r & [= <- <-] & Ht & Hf).
      apply Forall_singleton in Hf as (t & name & id & Ht' & Hn & Hi).
      rewrite Ht in Ht'. injection Ht' as <-.
      rewrite Ht. cbn. rewrite Hn. cbn. by rewrite Hi.
  - split.
    + intros H.
      destruct (mapM print_result (first :: second :: rest)) as [us|] eqn:Hm; [|done].
      cbn [mbind option_bind] in H.
      destruct (py_getitem first "team") as [t|] eqn:Ht; [|done]. cbn in H.
      destruct (py_getitem t "name") as [name|] eqn:Hn; [|done]. cbn in H.
      injection H as <-. exists first, (second :: rest).
      split; [done|]. split; [done|]. apply Hall. by rewrite Hm.
    + intros (f & r & [= <- <-] & Ht & Hf).
      pose proof Hf as Hf'. apply Hall in Hf' as [us Hm]. rewrite Hm.
      cbn [mbind option_bind].
      apply Forall_cons in Hf as [(t & name & id & Ht' & Hn & Hi) _].
      rewrite Ht in Ht'. injection Ht' as <-.
      rewrite Ht. cbn. by rewrite Hn.
Qed.

End TeamSearchMore.

(** ** The further properties at the sample data *)

Section WitnessesMore.
#[local] Existing Instance iso_lib.

Lemma parse_fixture_canonical_witness :
  parse_fixture raw_first = Ok fixture_finished ∧
  dom fixture_finished = list_to_set normalized_keys ∧
  (∃ d, fixture_finished !! "date" = Some (PDatetime d)) ∧
  (∃ st, fixture_finished !! "status" = Some (PStr st) ∧ st ∈ canonical_statuses).
Proof.
  split; [reflexivity|].
  apply (parse_fixture_canonical raw_first fixture_finished). reflexivity.
Defined.

Lemma insert_fixture_refuses_null_witness :
  returns (bind_fixture fixture_without_date) ∧
  dict_get fixture_without_date "date" = PNone ∧
  insert_fixture fixture_without_date second_sync_time store_first_sync
  = (Err IntegrityError, store_first_sync).
Proof.
  assert (H : returns (bind_fixture fixture_without_date)).
  { eexists. reflexivity. }
  split; [exact H|]. split; [reflexivity|].
  apply (insert_fixture_refuses_null fixture_without_date second_sync_time
           store_first_sync H).
  left. reflexivity.
Defined.

Lemma insert_fixture_latest_wins_witness :
  bind_param (dict_get fixture_scheduled "fixture_id") = Ok (SInt 100) ∧
  bind_param (dict_get fixture_finished "fixture_id") = Ok (SInt 100) ∧
  (insert_fixture fixture_finished second_sync_time empty_store).1 = Ok true ∧
  insert_fixture fixture_finished second_sync_time
    (insert_fixture fixture_scheduled first_sync_time empty_store).2
  = insert_fixture fixture_finished second_sync_time empty_store.
Proof.
  split; [reflexivity|]. split; [reflexivity|]. split; [reflexivity|].
  apply (insert_fixture_latest_wins fixture_scheduled fixture_finished
           first_sync_time second_sync_time empty_store 100); reflexivity.
Defined.

Lemma store_first_sync_has_room f :
  f ∈ fixtures store_first_sync → f_fixture_id f < int64_max.
Proof.
  intros Hf. vm_compute in Hf.
  apply list_elem_of_singleton in Hf. subst f. reflexivity.
Defined.

Lemma insert_fixture_without_id_witness :
  dict_get fixture_without_id "fixture_id" = PNone ∧
  (∀ f, f ∈ fixtures store_first_sync → f_fixture_id f < int64_max) ∧
  insert_fixture fixture_without_id second_sync_time store_first_sync
  = (Ok true, after (insert_fixture fixture_without_id second_sync_time) store_first_sync) ∧
  ∃ row,
    fixtures (after (insert_fixture fixture_without_id second_sync_time) store_first_sync)
    = fixtures store_first_sync ++ [row] ∧
    f_fixture_id row = new_rowid (fixtures store_first_sync) ∧
    f_fixture_id row ≤ int64_max ∧
    ∀ f, f ∈ fixtures store_first_sync → f_fixture_id f < f_fixture_id row.
Proof.
  split; [reflexivity|]. split; [exact store_first_sync_has_room|].
  split; [reflexivity|].
  apply (insert_fixture_without_id fixture_without_id second_sync_time store_first_sync).
  - reflexivity.
  - exact store_first_sync_has_room.
  - reflexivity.
Defined.

Lemma store_first_sync_unmarked a :
  a ∈ attended_matches store_first_sync → am_fixture_id a ≠ 100.
Proof. intros Ha. vm_compute in Ha. by apply elem_of_nil in Ha. Defined.

Lemma mark_then_unmark_witness :
  (∀ a, a ∈ attended_matches store_first_sync → am_fixture_id a ≠ 100) ∧
  ∃ s1 s2,
    mark_attended 100 (Some "great match") second_sync_time store_first_sync
    = (Ok true, s1) ∧
    unmark_attended 100 s1 = (Ok true, s2) ∧
    fixtures s2 = fixtures store_first_sync ∧
    attended_matches s2 = attended_matches store_first_sync ∧
    attended_seq s2 = attended_seq store_first_sync + 1 ∧
    ∀ notes' now', ∃ row s3,
      mark_attended 100 notes' now' s2 = (Ok true, s3) ∧
      attended_matches s3 = attended_matches store_first_sync ++ [row] ∧
      am_id row = attended_seq store_first_sync + 2.
Proof.
  split; [exact store_first_sync_unmarked|].
  apply (mark_then_unmark 100 (Some "great match") second_sync_time store_first_sync
           store_first_sync_unmarked).
Defined.

Lemma get_fixtures_once_witness :
  store_wf store_attended ∧
  NoDup (f_fixture_id <$> (v_fixture <$> get_fixtures (Some 1) (Some "finished") true
                                           store_attended)) ∧
  (length (get_fixtures (Some 1%Z) (Some "finished") true store_attended)
   ≤ length (fixtures store_attended))%nat ∧
  v_fixture <$> get_fixtures None None false store_attended ≡ₚ fixtures store_attended.
Proof.
  split; [exact store_attended_wf|].
  apply (get_fixtures_once (Some 1) (Some "finished") true store_attended
           store_attended_wf).
Defined.

Lemma store_first_sync_wf : store_wf store_first_sync.
Proof.
  eapply insert_fixture_wf; [|apply surjective_pairing].
  apply empty_store_wf.
Defined.

Lemma insert_then_get_witness :
  store_wf store_first_sync ∧
  bind_fixture fixture_finished = Ok (SInt 100, cols_finished) ∧
  stored_as_bound cols_finished = true ∧
  may_be_numeric second_sync_time = false ∧
  insert_fixture fixture_finished second_sync_time store_first_sync
  = (Ok true, after (insert_fixture fixture_finished second_sync_time) store_first_sync) ∧
  ∃ v,
    filter (λ v, f_fixture_id (v_fixture v) = 100)
      (get_fixtures None None false
         (after (insert_fixture fixture_finished second_sync_time) store_first_sync))
    = [v] ∧
    v_fixture v = new_fixture_row 100 cols_finished second_sync_time.
Proof.
  split; [exact store_first_sync_wf|]. split; [reflexivity|].
  split; [vm_compute; reflexivity|]. split; [vm_compute; reflexivity|].
  split; [reflexivity|].
  apply (insert_then_get fixture_finished second_sync_time store_first_sync
           (after (insert_fixture fixture_finished second_sync_time) store_first_sync)
           100 cols_finished store_first_sync_wf).
  - reflexivity.
  - vm_compute; reflexivity.
  - vm_compute; reflexivity.
  - reflexivity.
Defined.

Lemma store_attended_reachable : reachable store_attended.
Proof. do 3 constructor. apply reach_init. Defined.

Lemma reachable_constraints_witness :
  reachable store_attended ∧
  store_wf store_attended ∧
  store_wf (sync_team_fixtures provider_sound sample_clock 1 "brasileirao_a" 2024
              store_attended).2.
Proof.
  split; [exact store_attended_reachable|].
  apply (reachable_constraints provider_sound sample_clock 1 "brasileirao_a" 2024
           store_attended store_attended_reachable).
Defined.

Lemma wins_draws_losses_bounds_witness :
  1 ≠ 0 ∧
  let st := get_statistics (Some 1) store_attended in
  ∃ w d l, wins st = Some w ∧ draws st = Some d ∧ losses st = Some l ∧
           0 ≤ w ≤ total_attended st ∧
           0 ≤ d ≤ total_attended st ∧
           0 ≤ l ≤ total_attended st.
Proof.
  assert (H : 1 ≠ 0) by lia.
  split; [exact H|]. apply (wins_draws_losses_bounds 1 store_attended H).
Defined.

Lemma store_first_sync_no_finished f :
  f ∈ fixtures store_first_sync → marked store_first_sync f → played 1 f →
  f_status f ≠ SText "finished".
Proof.
  intros _ (a & Ha & _) _. vm_compute in Ha. by apply elem_of_nil in Ha.
Defined.

Lemma no_finished_match_zero_witness :
  1 ≠ 0 ∧
  (∀ f, f ∈ fixtures store_first_sync → marked store_first_sync f → played 1 f →
        f_status f ≠ SText "finished") ∧
  wins (get_statistics (Some 1) store_first_sync) = Some 0 ∧
  draws (get_statistics (Some 1) store_first_sync) = Some 0 ∧
  losses (get_statistics (Some 1) store_first_sync) = Some 0.
Proof.
  assert (H : 1 ≠ 0) by lia.
  split; [exact H|]. split; [exact store_first_sync_no_finished|].
  apply (no_finished_match_zero 1 store_first_sync H store_first_sync_no_finished).
Defined.

Lemma sync_keeps_partial_progress_witness :
  COMPETITIONS !! "brasileirao_a" = Some {| comp_id := 71; comp_name := "Brasileirão Série A" |} ∧
  provider_with_undated 1 71 2024 = Ok ([raw_first] ++ raw_undated :: [raw_second]) ∧
  sync_loop sample_clock 0 [raw_first] 0 empty_store
  = (Ok 1, after (insert_fixture fixture_finished second_sync_time) empty_store) ∧
  parse_fixture raw_undated = Err ValueError ∧
  sync_team_fixtures provider_with_undated sample_clock 1 "brasileirao_a" 2024 empty_store
  = ((0, 0), after (insert_fixture fixture_finished second_sync_time) empty_store).
Proof.
  split; [reflexivity|]. split; [reflexivity|]. split; [reflexivity|].
  split; [reflexivity|].
  apply (sync_keeps_partial_progress provider_with_undated sample_clock
           1 "brasileirao_a" 2024 empty_store
           {| comp_id := 71; comp_name := "Brasileirão Série A" |}
           [raw_first] raw_undated [raw_second] 1
           (after (insert_fixture fixture_finished second_sync_time) empty_store)
           ValueError).
  - reflexivity.
  - reflexivity.
  - reflexivity.
  - left. reflexivity.
Defined.

Lemma provider_sound_storable :
  Forall (λ raw, ∃ fd, parse_fixture raw = Ok fd ∧
                       (insert_fixture fd "" empty_store).1 = Ok true)
         [raw_first; raw_second].
Proof.
  apply Forall_cons. split; [eexists; split; reflexivity|].
  apply Forall_cons. split; [eexists; split; reflexivity|].
  apply Forall_nil_2.
Defined.

Lemma sync_all_stored_witness :
  COMPETITIONS !! "brasileirao_a" = Some {| comp_id := 71; comp_name := "Brasileirão Série A" |} ∧
  provider_sound 1 71 2024 = Ok [raw_first; raw_second] ∧
  Forall (λ raw, ∃ fd, parse_fixture raw = Ok fd ∧
                       (insert_fixture fd "" empty_store).1 = Ok true)
         [raw_first; raw_second] ∧
  (sync_team_fixtures provider_sound sample_clock 1 "brasileirao_a" 2024 store_attended).1
  = (Z.of_nat (length [raw_first; raw_second]), Z.of_nat (length [raw_first; raw_second])).
Proof.
  split; [reflexivity|]. split; [reflexivity|]. split; [exact provider_sound_storable|].
  apply (sync_all_stored provider_sound sample_clock 1 "brasileirao_a" 2024 store_attended
           {| comp_id := 71; comp_name := "Brasileirão Série A" |}
           [raw_first; raw_second]).
  - reflexivity.
  - reflexivity.
  - exact provider_sound_storable.
Defined.

Lemma store_first_sync_no_seven f :
  f ∈ fixtures store_first_sync → f_fixture_id f ≠ 7.
Proof.
  intros Hf. vm_compute in Hf.
  apply list_elem_of_singleton in Hf. subst f. cbn [f_fixture_id]. lia.
Defined.

Lemma store_first_sync_unmarked_seven a :
  a ∈ attended_matches store_first_sync → am_fixture_id a ≠ 7.
Proof. intros Ha. vm_compute in Ha. by apply elem_of_nil in Ha. Defined.

Lemma mark_unknown_fixture_witness :
  (∀ a, a ∈ attended_matches store_first_sync → am_fixture_id a ≠ 7) ∧
  (∀ f, f ∈ fixtures store_first_sync → f_fixture_id f ≠ 7) ∧
  ∃ s', mark_match_attended 7 None second_sync_time store_first_sync = (true, s') ∧
        (∃ a, a ∈ attended_matches s' ∧ am_fixture_id a = 7) ∧
        (∀ team_id status attended_only,
           get_fixtures team_id status attended_only s'
           = get_fixtures team_id status attended_only store_first_sync) ∧
        (∀ team_id,
           get_attendance_statistics team_id s'
           = get_attendance_statistics team_id store_first_sync).
Proof.
  split; [exact store_first_sync_unmarked_seven|].
  split; [exact store_first_sync_no_seven|].
  apply (mark_unknown_fixture 7 None second_sync_time store_first_sync
           store_first_sync_unmarked_seven store_first_sync_no_seven).
Defined.

End WitnessesMore.
